(** * Questions API: duplicate collapsing and similarity matching

    A shallow embedding of [main.py]: the startup job that removes
    exact-text duplicates from the [questions] collection, the create and
    delete endpoints, and the three matchers (spaCy similarity, MongoDB
    text search, word overlap).

    The MongoDB collection is a list of documents in natural order; the
    driver calls used by the program ([aggregate], [delete_many],
    [delete_one], [insert_one], [count_documents], [find]) are functions on
    that list.  Scores are binary64 floats, as in Python. *)

From Stdlib Require Import Floats Ascii.
From stdpp Require Import base decidable option list numbers strings gmap.

Set Warnings "-inexact-float,-clear-no-such-hyp".

(** ** Values *)

(** A BSON [ObjectId]: the 12-byte value, read as a number. *)
Abbreviation ObjectId := N (only parsing).

(** A [datetime]: microseconds since the epoch. *)
Abbreviation datetime := Z (only parsing).

(** Exceptions the program can raise. *)
Inductive Exception :=
  | IndexError
  | InvalidId
  | HTTPException (status_code : nat) (detail : string).

Inductive Result (A : Type) :=
  | Ok (a : A)
  | Raise (e : Exception).
Arguments Ok {A} a.
Arguments Raise {A} e.

(** A document of the [questions] collection. *)
Record Document := mkDocument {
  _id : ObjectId;
  text : string;
  created_at : datetime
}.

Abbreviation Collection := (list Document) (only parsing).

Global Instance Document_eq_dec : EqDecision Document.
Proof. solve_decision. Defined.

(** ** The store *)

(** [count_documents({})] *)
Definition count_documents (db : Collection) : nat := length db.

(** [delete_many({"_id": {"$in": ids}})]: every document whose [_id] is
    listed goes; the result carries [deleted_count]. *)
Definition delete_many (ids : list ObjectId) (db : Collection) : Collection * nat :=
  let db' := filter (λ d, _id d ∉ ids) db in
  (db', length db - length db').

(** [delete_one({"_id": oid})]: the first document with that [_id] goes. *)
Fixpoint delete_one (oid : ObjectId) (db : Collection) : Collection * nat :=
  match db with
  | [] => ([], 0)
  | d :: db' =>
      if decide (_id d = oid) then (db', 1)
      else let '(r, n) := delete_one oid db' in (d :: r, n)
  end.

(** ** The aggregation pipeline of the startup job *)

(** The [$addToSet] accumulator maps the values it is fed, in the order
    the stage meets them, to an array holding each distinct value once.
    MongoDB leaves the order of that array unspecified, so the order is a
    parameter of the store. *)
Class Accumulator := {
  addToSet : list ObjectId → list ObjectId;
  addToSet_NoDup : ∀ l, NoDup (addToSet l);
  addToSet_elem_of : ∀ l x, x ∈ addToSet l ↔ x ∈ l
}.

(** An accumulator keeps insertion order when it returns a duplicate-free
    input unchanged. *)
Definition OrderPreserving (A : Accumulator) : Prop :=
  ∀ l, NoDup l → addToSet l = l.

(** A document produced by the [$group] stage. *)
Record Group := mkGroup {
  key : string;
  duplicate_ids : list ObjectId;
  count : nat
}.

(** The documents with a given text, in natural order. *)
Definition members (t : string) (db : Collection) : list Document :=
  filter (λ d, text d = t) db.

(** [{"$group": {"_id": "$text", "duplicate_ids": {"$addToSet": "$_id"},
    "count": {"$sum": 1}}}] *)
Definition group_stage `{Accumulator} (db : Collection) : list Group :=
  (λ t, {| key := t;
           duplicate_ids := addToSet (_id <$> members t db);
           count := length (members t db) |}) <$> remove_dups (text <$> db).

(** [{"$match": {"count": {"$gt": 1}}}] *)
Definition match_stage (gs : list Group) : list Group :=
  filter (λ g, 1 < count g) gs.

(** [app.mongodb.questions.aggregate(pipeline)].  [$group] reads the whole
    collection before it yields its first document, so the cursor holds
    the groups of the collection as it was when the job started. *)
Definition aggregate `{Accumulator} (db : Collection) : list Group :=
  match_stage (group_stage db).

(** ** The startup job *)

(** [list.pop(0)] *)
Definition pop0 {A} (l : list A) : Result (A * list A) :=
  match l with
  | [] => Raise IndexError
  | x :: l' => Ok (x, l')
  end.

(** One [delete_many] call: the identifiers passed and [deleted_count]. *)
Definition DeleteCall : Type := list ObjectId * nat.

(** The body of [async for doc in cursor]: the collection and the calls
    made so far are threaded through the iterations. *)
Fixpoint collapse_loop (cursor : list Group) (db : Collection)
    (calls : list DeleteCall) : Result (Collection * list DeleteCall) :=
  match cursor with
  | [] => Ok (db, calls)
  | doc :: cursor' =>
      match pop0 (duplicate_ids doc) with
      | Raise e => Raise e
      | Ok (_, ids) =>
          let '(db', n) := delete_many ids db in
          collapse_loop cursor' db' (calls ++ [(ids, n)])
      end
  end.

(** [startup_db_client]: the final collection and the [delete_many] calls
    issued, in order. *)
Definition startup_db_client `{Accumulator} (db : Collection)
    : Result (Collection * list DeleteCall) :=
  collapse_loop (aggregate db) db [].

(** The identifiers a cursor marks for deletion: in every group, all but
    the one listed first. *)
Definition marked (cursor : list Group) : list ObjectId :=
  cursor ≫= (λ g, tail (duplicate_ids g)).

(** A document is canonical when its group lists its identifier first. *)
Definition canonical `{Accumulator} (db : Collection) (d : Document) : Prop :=
  head (addToSet (_id <$> members (text d) db)) = Some (_id d).

Global Instance canonical_dec `{Accumulator} db d : Decision (canonical db d).
Proof. unfold canonical. apply _. Defined.

(** The first-inserted document with text [t]. *)
Definition first_inserted (t : string) (db : Collection) : option Document :=
  head (members t db).

(** *** Two accumulators *)

Definition add_to_set (acc : list ObjectId) (x : ObjectId) : list ObjectId :=
  if decide (x ∈ acc) then acc else acc ++ [x].

(** Values in the order they were first met. *)
Definition first_seen (l : list ObjectId) : list ObjectId :=
  foldl add_to_set [] l.

(** The same values, latest first. *)
Definition latest_first (l : list ObjectId) : list ObjectId :=
  reverse (first_seen l).

(** ** Collaborators outside the program *)

(** The [bson] library: the constructor [ObjectId(s)], which raises
    [InvalidId] on a string that does not denote an identifier, and
    [str(oid)]. *)
Class Bson := {
  ObjectId_from_str : string → Result ObjectId;
  str : ObjectId → string
}.

(** The spaCy pipeline: [nlp(text)] and [Doc.similarity], which returns a
    Python float. *)
Class Embedder := {
  Doc : Type;
  nlp : string → Doc;
  similarity : Doc → Doc → float
}.

(** The text index of the collection: the [textScore] of a document text
    for a search string, when the document matches it. *)
Class TextIndex := {
  textScore : string → string → option float
}.

(** ** Models of [models.py] *)

(** Modelled from the spec: [models.py] is not part of the sources; the
    [Question] model has the fields the data model lists and
    [create_question] passes ([id], [text], [created_at]).  The request
    models ([QuestionInput], [SimilarityRequest], [WordCheckRequest]) carry
    the single field [text], which the endpoints below take directly. *)
Module Question.
Record t := mk {
  id : string;
  text : string;
  created_at : datetime
}.
End Question.

(** Modelled from the spec: [SimilarityResponse] holds the matches and
    their number; the two similarity endpoints fill it with entries of
    different shapes. *)
Record SimilarityResponse (E : Type) := mkSimilarityResponse {
  similar_questions : list E;
  similarity_count : nat
}.
Arguments mkSimilarityResponse {E} _ _.
Arguments similar_questions {E} _.
Arguments similarity_count {E} _.

(** Modelled from the spec: [WordCheckResponse] holds the count. *)
Record WordCheckResponse := mkWordCheckResponse {
  match_count : nat
}.

(** ** [create_question] *)

(** The identifier the driver generates for a new document differs from
    every stored one. *)
Definition fresh_id (db : Collection) : ObjectId :=
  N.succ (foldr N.max 0%N (_id <$> db)).

(** [insert_one(question_data)]; the result carries [inserted_id]. *)
Definition insert_one (question_data : string * datetime) (db : Collection)
    : Collection * ObjectId :=
  let oid := fresh_id db in
  (db ++ [mkDocument oid question_data.1 question_data.2], oid).

(** [create_question]; [utcnow] is the clock reading. *)
Definition create_question `{Bson} (question_text : string) (utcnow : datetime)
    (db : Collection) : Collection * Question.t :=
  let count := count_documents db in
  let question_data := (question_text, utcnow) in
  let '(db', inserted_id) := insert_one question_data db in
  (db', Question.mk (str inserted_id) question_text question_data.2).

(** ** [delete_question] *)

Definition delete_question `{Bson} (question_id : string) (db : Collection)
    : Collection * Result string :=
  match ObjectId_from_str question_id with
  | Raise e => (db, Raise e)
  | Ok oid =>
      let '(db', deleted_count) := delete_one oid db in
      if decide (deleted_count = 0)
      then (db', Raise (HTTPException 404 "Question not found"))
      else (db', Ok "Question deleted successfully")
  end.

(** ** [get_questions] *)

Definition get_questions (db : Collection) : nat := count_documents db.

(** ** Python's [round(x, 2)] on floats *)

(** The integer nearest to [a * 2^e], ties to even. *)
Definition round_half_even (a e : Z) : Z :=
  if (0 <=? e)%Z then (a * 2 ^ e)%Z
  else
    let d := (2 ^ (- e))%Z in
    let q := (a / d)%Z in
    let r := (a mod d)%Z in
    match (2 * r ?= d)%Z with
    | Lt => q
    | Gt => (q + 1)%Z
    | Eq => if Z.even q then q else (q + 1)%Z
    end.

(** [round(x, 2)]: the exact value of [x] is rounded to the nearest
    multiple of 1/100, ties to even, and the float nearest to that decimal
    is returned; NaN, infinities and zeros are returned unchanged. *)
Definition round2 (x : float) : float :=
  match Prim2SF x with
  | S754_finite s m e =>
      match round_half_even (Z.pos m * 100) e with
      | Zpos p =>
          SF2Prim (SFdiv prec emax (S754_finite s p 0) (S754_finite false 100 0))
      | _ => SF2Prim (S754_zero s)
      end
  | _ => x
  end.

(** ** [check_similarity] (route [/questions/check-similarity/]) *)

(** An entry of [similar_questions]. *)
Module Similar.
Record t := mk {
  id : string;
  text : string;
  created_at : datetime;
  score : float
}.
End Similar.

(** [find({})]: every document, in natural order. *)
Definition find_all (db : Collection) : list Document := db.

(** The dictionary appended for a stored question. *)
Definition similar_entry `{Bson} (existing_question : Document)
    (sim : float) : Similar.t :=
  Similar.mk (str (_id existing_question)) (text existing_question)
             (created_at existing_question) (round2 (sim * 100)).

(** The body of [async for existing_question in cursor]. *)
Fixpoint check_similarity_loop `{Bson} `{Embedder} (input_doc : Doc)
    (cursor : list Document) (similar_questions : list Similar.t)
    : list Similar.t :=
  match cursor with
  | [] => similar_questions
  | existing_question :: cursor' =>
      let existing_doc := nlp (text existing_question) in
      let sim := similarity input_doc existing_doc in
      if (0.7 <? sim)%float
      then check_similarity_loop input_doc cursor'
             (similar_questions ++ [similar_entry existing_question sim])
      else check_similarity_loop input_doc cursor' similar_questions
  end.

Definition check_similarity `{Bson} `{Embedder} (question_text : string)
    (db : Collection) : SimilarityResponse Similar.t :=
  let input_doc := nlp question_text in
  let similar_questions := check_similarity_loop input_doc (find_all db) [] in
  mkSimilarityResponse similar_questions (length similar_questions).

(** A stored question passes when its similarity to the input is above
    the threshold. *)
Definition passes (E : Embedder) (question_text : string) (q : Document)
    : Prop :=
  (0.7 <? similarity (nlp question_text) (nlp (text q)))%float = true.

Global Instance passes_dec E question_text q :
  Decision (passes E question_text q).
Proof. unfold passes. apply _. Defined.

(** The entry reported for a stored question. *)
Definition entry_for (B : Bson) (E : Embedder) (question_text : string)
    (q : Document) : Similar.t :=
  similar_entry q (similarity (nlp question_text) (nlp (text q))).

(** A stub embedder: a text is its own document; similarity is 1 for equal
    texts, exactly 0.7 against ["x"], and 0.8123456 otherwise. *)
Definition stub_embedder : Embedder :=
  {| Doc := string;
     nlp s := s;
     similarity a b :=
       if decide (a = b) then 1%float
       else if decide (b = "x") then 0.7%float else 0.8123456%float |}.

(** ** [check_similarity] (route [/questions/check-similarity-2/]) *)

(** The value under ["_id"]: an [ObjectId] as stored, a string once the
    loop has rewritten it. *)
Inductive IdValue :=
  | OidV (oid : ObjectId)
  | StrV (s : string).

(** A document yielded by the text search; ["score"] may be absent. *)
Module Hit.
Record t := mk {
  _id : IdValue;
  text : string;
  created_at : datetime;
  score : option float
}.
End Hit.

(** [str(doc["_id"])] *)
Definition str_id `{Bson} (v : IdValue) : string :=
  match v with
  | OidV oid => str oid
  | StrV s => s
  end.

(** [doc.get("score", 0)] *)
Definition get_score (doc : Hit.t) : float :=
  default 0%float (Hit.score doc).

(** [doc["_id"] = str(doc["_id"])] *)
Definition with_str_id `{Bson} (doc : Hit.t) : Hit.t :=
  Hit.mk (StrV (str_id (Hit._id doc))) (Hit.text doc) (Hit.created_at doc)
         (Hit.score doc).

(** Insertion into a cursor sorted by descending score; among equal
    scores the inserted hit comes first. *)
Fixpoint insert_by_score (h : Hit.t) (hits : list Hit.t) : list Hit.t :=
  match hits with
  | [] => [h]
  | h' :: hits' =>
      if (get_score h' <=? get_score h)%float then h :: hits
      else h' :: insert_by_score h hits'
  end.

(** [find({"$text": {"$search": s}}, {"score": {"$meta": "textScore"}})
    .sort([("score", {"$meta": "textScore"})])]: the matching documents
    with their score, highest first. *)
Definition text_search `{TextIndex} (search : string) (db : Collection)
    : list Hit.t :=
  foldr insert_by_score []
    (omap (λ d, s ← textScore search (text d);
                Some (Hit.mk (OidV (_id d)) (text d) (created_at d) (Some s)))
          db).

(** The body of [async for doc in cursor]. *)
Fixpoint check_similarity_2_loop `{Bson} (cursor : list Hit.t)
    (filtered_results : list Hit.t) : list Hit.t :=
  match cursor with
  | [] => filtered_results
  | doc :: cursor' =>
      if (2.5 <? get_score doc)%float
      then check_similarity_2_loop cursor' (filtered_results ++ [with_str_id doc])
      else check_similarity_2_loop cursor' filtered_results
  end.

(** The endpoint, from the cursor on. *)
Definition check_similarity_2_on `{Bson} (cursor : list Hit.t)
    : SimilarityResponse Hit.t :=
  let filtered_results := check_similarity_2_loop cursor [] in
  mkSimilarityResponse filtered_results (length filtered_results).

Definition check_similarity_2 `{Bson} `{TextIndex} (question_text : string)
    (db : Collection) : SimilarityResponse Hit.t :=
  check_similarity_2_on (text_search question_text db).

(** A hit is relevant when its score is above the threshold. *)
Definition relevant (doc : Hit.t) : Prop :=
  (2.5 <? get_score doc)%float = true.

Global Instance relevant_dec doc : Decision (relevant doc).
Proof. unfold relevant. apply _. Defined.

(** A text index for three texts: ["a"] scores 2, ["b"] 3, ["c"] 2.6. *)
Definition stub_index : TextIndex :=
  {| textScore search t :=
       if decide (t = "a") then Some 2%float
       else if decide (t = "b") then Some 3%float
       else if decide (t = "c") then Some 2.6%float else None |}.

(** ** [check_words] *)

(** Characters are code points below 256. *)

(** [str.isspace] on one character. *)
Definition isspace (c : ascii) : bool :=
  let n := N_of_ascii c in
  ((9 <=? n) && (n <=? 13) || (28 <=? n) && (n <=? 32)
   || (n =? 133) || (n =? 160))%N.

(** [str.lower] on one character. *)
Definition lower_char (c : ascii) : ascii :=
  let n := N_of_ascii c in
  if ((65 <=? n) && (n <=? 90)
      || (192 <=? n) && (n <=? 222) && negb (n =? 215))%N
  then ascii_of_N (n + 32) else c.

(** [str.lower] *)
Fixpoint lower (s : string) : string :=
  match s with
  | EmptyString => EmptyString
  | String c s' => String (lower_char c) (lower s')
  end.

(** [str.split()] scanning [s] with the word read so far in [word]. *)
Fixpoint split_from (s : string) (word : string) : list string :=
  match s with
  | EmptyString => if decide (word = EmptyString) then [] else [word]
  | String c s' =>
      if isspace c
      then (if decide (word = EmptyString) then [] else [word])
             ++ split_from s' EmptyString
      else split_from s' (word +:+ String c EmptyString)
  end.

(** [str.split()]: the maximal runs of non-whitespace characters. *)
Definition split (s : string) : list string := split_from s EmptyString.

(** [set(word.lower() for word in s.split())] *)
Definition word_set (s : string) : gset string :=
  list_to_set (lower <$> split s).

(** The body of [async for existing_question in cursor]. *)
Fixpoint check_words_loop (input_words : gset string)
    (cursor : list Document) (match_count : nat) : nat :=
  match cursor with
  | [] => match_count
  | existing_question :: cursor' =>
      let question_words := word_set (text existing_question) in
      let common_words := input_words ∩ question_words in
      if decide (common_words ≠ ∅)
      then check_words_loop input_words cursor' (match_count + 1)
      else check_words_loop input_words cursor' match_count
  end.

Definition check_words (request_text : string) (db : Collection)
    : WordCheckResponse :=
  let input_words := word_set request_text in
  mkWordCheckResponse (check_words_loop input_words (find_all db) 0).

(** A stored question overlaps the input when the two word sets share a
    word. *)
Definition overlaps (request_text : string) (q : Document) : Prop :=
  word_set request_text ∩ word_set (text q) ≠ ∅.

Global Instance overlaps_dec request_text q :
  Decision (overlaps request_text q).
Proof. unfold overlaps. apply _. Defined.

(** ** A concrete [bson] *)

Definition hex_char (n : N) : ascii :=
  default "0"%char (String.get (N.to_nat n) "0123456789abcdef").

Fixpoint hex_of (digits : nat) (n : N) (acc : string) : string :=
  match digits with
  | O => acc
  | S k => hex_of k (n / 16)%N (String (hex_char (n mod 16)%N) acc)
  end.

Definition hex_value (c : ascii) : option N :=
  let n := N_of_ascii c in
  if ((48 <=? n) && (n <=? 57))%N then Some (n - 48)%N
  else if ((97 <=? n) && (n <=? 102))%N then Some (n - 87)%N
  else if ((65 <=? n) && (n <=? 70))%N then Some (n - 55)%N
  else None.

Fixpoint parse_hex (s : string) (acc : N) : option N :=
  match s with
  | EmptyString => Some acc
  | String c s' => v ← hex_value c; parse_hex s' (16 * acc + v)%N
  end.

(** Identifiers written as 24 hexadecimal digits. *)
Definition hex_bson : Bson :=
  {| ObjectId_from_str s :=
       if decide (String.length s = 24)
       then match parse_hex s 0 with
            | Some n => Ok n
            | None => Raise InvalidId
            end
       else Raise InvalidId;
     str oid := hex_of 24 oid EmptyString |}.

(** ** Statements about the startup job *)

(** What the loop relies on: groups have distinct keys, and each lists,
    without repeats, identifiers of stored documents with its text. *)
Definition well_grouped (cursor : list Group) (db : Collection) : Prop :=
  NoDup (key <$> cursor) ∧
  ∀ g, g ∈ cursor →
    NoDup (duplicate_ids g) ∧ duplicate_ids g ≠ [] ∧
    ∀ x, x ∈ duplicate_ids g → ∃ d, d ∈ db ∧ _id d = x ∧ text d = key g.

(** The call the loop makes for a group. *)
Definition call_of (g : Group) : DeleteCall :=
  (tail (duplicate_ids g), length (tail (duplicate_ids g))).

(** *** Sample collections *)

Definition q1 : Document := mkDocument 1 "What is a black hole?" 100.
Definition q2 : Document := mkDocument 2 "What is a black hole?" 200.
Definition q3 : Document := mkDocument 3 "How do black holes form?" 300.
Definition q4 : Document := mkDocument 4 "How do black holes form?" 400.

(** Every text keeps exactly one document, the first-inserted one. *)
Definition canonical_retention (Acc : Accumulator) (db : Collection) : Prop :=
  ∀ db' calls, startup_db_client db = Ok (db', calls) →
    ∀ t, t ∈ text <$> db →
      ∃ d, members t db' = [d] ∧ first_inserted t db = Some d.


(** ** Statement vocabulary for the matchers *)

(** *** Rounding to two decimal places *)

(** A finite float is [(-1)^s * m * 2^e]; a hundred times its value is
    [u / d] with [u = 100 * m * 2^max(0,e)] and [d = 2^max(0,-e)].  [k] is
    the integer nearest to that quotient, the even one on a tie. *)
Definition nearest_hundredths (m : positive) (e k : Z) : Prop :=
  let u := (100 * Z.pos m * 2 ^ Z.max 0 e)%Z in
  let d := (2 ^ Z.max 0 (- e))%Z in
  (Z.abs (2 * u - 2 * k * d) ≤ d)%Z ∧
  (Z.abs (2 * u - 2 * k * d) = d → Z.even k = true).

(** The float for [k] hundredths with sign [s]: the IEEE 754 quotient of
    [k] by 100, that is the binary64 value nearest to [k / 100]. *)
Definition hundredth_of (s : bool) (k : Z) : float :=
  SF2Prim (SFdiv prec emax
             (match k with Zpos p => S754_finite s p 0 | _ => S754_zero s end)
             (S754_finite false 100 0)).

(** [r] is [x] rounded to two decimal places: the float of the nearest
    number of hundredths; NaN, infinities and zeros stay as they are. *)
Definition rounded_to_2_places (x r : float) : Prop :=
  match Prim2SF x with
  | S754_finite s m e => ∃ k, nearest_hundredths m e k ∧ r = hundredth_of s k
  | _ => r = x
  end.

(** *** Hits above the lexical threshold *)

(** The hit carries a score, and it is strictly above 2.5. *)
Definition scores_above_threshold (doc : Hit.t) : bool :=
  match Hit.score doc with
  | Some s => (2.5 <? s)%float
  | None => false
  end.

(** The hit as the endpoint returns it: the identifier as a string, the
    other fields untouched. *)
Definition as_returned (B : Bson) (doc : Hit.t) : Hit.t :=
  Hit.mk (StrV (match Hit._id doc with OidV oid => str oid | StrV s => s end))
         (Hit.text doc) (Hit.created_at doc) (Hit.score doc).

(** *** Words of a text *)



Fixpoint no_whitespace (w : string) : bool :=
  match w with
  | EmptyString => true
  | String c w' => negb (isspace c) && no_whitespace w'
  end.




(** * Properties *)

(** ** List facts used below *)

Lemma filter_none {A} (P : A → Prop) `{!∀ x, Decision (P x)} (l : list A) :
  (∀ x, x ∈ l → ¬ P x) → filter P l = [].
Proof.
  induction l as [|a l IH]; intros Hl; [done|].
  rewrite filter_cons_False by (apply Hl; left).
  apply IH. intros x Hx. apply Hl. by right.
Qed.

Section unique_image.
Context {A B : Type} `{EqDecision B} (f : A → B).

(** In a list whose [f]-images are pairwise distinct, selecting by the
    image of a member returns that member alone. *)
Lemma filter_unique_image (l : list A) (x : A) :
  NoDup (f <$> l) → x ∈ l → filter (λ y, f y = f x) l = [x].
Proof.
  induction l as [|a l IH]; intros Hnd Hx.
  - by apply elem_of_nil in Hx.
  - rewrite fmap_cons in Hnd. apply NoDup_cons in Hnd as [Ha Hnd].
    apply elem_of_cons in Hx as [->|Hx].
    + rewrite filter_cons_True by done. f_equal.
      apply filter_none. intros y Hy Heq.
      apply Ha. rewrite <- Heq. by apply list_elem_of_fmap_2.
    + rewrite filter_cons_False.
      * by apply IH.
      * intros Heq. apply Ha. rewrite Heq. by apply list_elem_of_fmap_2.
Qed.

Lemma image_inj_on (l : list A) (x y : A) :
  NoDup (f <$> l) → x ∈ l → y ∈ l → f x = f y → x = y.
Proof.
  intros Hnd Hx Hy Heq.
  assert (Hin : y ∈ filter (λ z, f z = f x) l)
    by (apply list_elem_of_filter; split; [done|done]).
  rewrite (filter_unique_image l x Hnd Hx) in Hin.
  by apply list_elem_of_singleton in Hin.
Qed.

End unique_image.

Lemma filter_all {A} (P : A → Prop) `{!∀ x, Decision (P x)} (l : list A) :
  (∀ x, x ∈ l → P x) → filter P l = l.
Proof.
  induction l as [|a l IH]; intros Hl; [done|].
  rewrite filter_cons_True by (apply Hl; left).
  f_equal. apply IH. intros x Hx. apply Hl. by right.
Qed.

(** ** The accumulators *)

Lemma foldl_add_to_set_elem_of (l acc : list ObjectId) (x : ObjectId) :
  x ∈ foldl add_to_set acc l ↔ x ∈ acc ∨ x ∈ l.
Proof.
  revert acc. induction l as [|a l IH]; intros acc; simpl.
  - set_solver.
  - rewrite IH. unfold add_to_set. case_decide; set_solver.
Qed.

Lemma foldl_add_to_set_NoDup (l acc : list ObjectId) :
  NoDup acc → NoDup (foldl add_to_set acc l).
Proof.
  revert acc. induction l as [|a l IH]; intros acc Hnd; simpl; [done|].
  apply IH. unfold add_to_set. case_decide; [done|].
  apply NoDup_app. split_and!; [done| |apply NoDup_singleton].
  set_solver.
Qed.

Lemma foldl_add_to_set_fresh (l acc : list ObjectId) :
  NoDup (acc ++ l) → foldl add_to_set acc l = acc ++ l.
Proof.
  revert acc. induction l as [|a l IH]; intros acc Hnd; simpl.
  - by rewrite app_nil_r.
  - unfold add_to_set. case_decide as Hin.
    + apply NoDup_app in Hnd as (_ & Hd & _).
      exfalso. apply (Hd a Hin). left.
    + rewrite IH; rewrite <- app_assoc; done.
Qed.

Lemma first_seen_NoDup l : NoDup (first_seen l).
Proof. apply foldl_add_to_set_NoDup, NoDup_nil_2. Qed.

Lemma first_seen_elem_of l x : x ∈ first_seen l ↔ x ∈ l.
Proof. unfold first_seen. rewrite foldl_add_to_set_elem_of. set_solver. Qed.

Lemma first_seen_fresh l : NoDup l → first_seen l = l.
Proof. intros Hnd. by apply (foldl_add_to_set_fresh l []). Qed.

(** A store whose [$addToSet] lists identifiers in insertion order. *)
Definition insertion_order : Accumulator :=
  {| addToSet := first_seen;
     addToSet_NoDup := first_seen_NoDup;
     addToSet_elem_of := first_seen_elem_of |}.

Lemma latest_first_NoDup l : NoDup (latest_first l).
Proof. unfold latest_first. rewrite reverse_Permutation. apply first_seen_NoDup. Qed.

Lemma latest_first_elem_of l x : x ∈ latest_first l ↔ x ∈ l.
Proof. unfold latest_first. by rewrite elem_of_reverse, first_seen_elem_of. Qed.

(** A store whose [$addToSet] lists the latest identifier first. *)
Definition latest_order : Accumulator :=
  {| addToSet := latest_first;
     addToSet_NoDup := latest_first_NoDup;
     addToSet_elem_of := latest_first_elem_of |}.

Lemma insertion_order_preserving : OrderPreserving insertion_order.
Proof. intros l Hnd. by apply first_seen_fresh. Qed.

(** ** The store *)

Lemma filter_ext_on {A} (P Q : A → Prop) `{!∀ x, Decision (P x)}
    `{!∀ x, Decision (Q x)} (l : list A) :
  (∀ x, x ∈ l → P x ↔ Q x) → filter P l = filter Q l.
Proof.
  induction l as [|a l IH]; intros Hl; [done|].
  rewrite !filter_cons.
  assert (Ha : P a ↔ Q a) by (apply Hl; left).
  rewrite IH by (intros x Hx; apply Hl; by right).
  repeat case_decide; tauto.
Qed.

Lemma filter_comm {A} (P Q : A → Prop) `{!∀ x, Decision (P x)}
    `{!∀ x, Decision (Q x)} (l : list A) :
  filter P (filter Q l) = filter Q (filter P l).
Proof. rewrite !list_filter_filter. apply list_filter_iff. tauto. Qed.

Lemma NoDup_ids_filter (P : Document → Prop) `{!∀ d, Decision (P d)} db :
  NoDup (_id <$> db) → NoDup (_id <$> filter P db).
Proof.
  intros Hnd. eapply sublist_NoDup; [exact Hnd|].
  apply fmap_sublist, sublist_filter.
Qed.

(** A [delete_many] over distinct identifiers that are all stored reports
    as many deletions as identifiers. *)
Lemma delete_many_count ids db :
  NoDup (_id <$> db) → NoDup ids → (∀ x, x ∈ ids → x ∈ _id <$> db) →
  (delete_many ids db).2 = length ids.
Proof.
  intros Hdb Hids Hsub. unfold delete_many; simpl.
  pose proof (filter_app_complement (λ d, _id d ∉ ids) db) as Hp.
  apply Permutation_length in Hp. rewrite length_app in Hp.
  assert (Hlen : length (filter (λ d, ¬ (_id d ∉ ids)) db) = length ids).
  { rewrite <- (length_fmap _id). apply Permutation_length.
    apply NoDup_Permutation; [by apply NoDup_ids_filter|done|].
    intros x. rewrite list_elem_of_fmap. split.
    - intros (d & -> & Hd). apply list_elem_of_filter in Hd as [Hd _].
      by apply dec_stable in Hd.
    - intros Hx. pose proof (Hsub x Hx) as Hs.
      apply list_elem_of_fmap in Hs as (d & -> & Hd).
      exists d. split; [done|]. apply list_elem_of_filter. split; [|done].
      intros Hn. by apply Hn. }
  lia.
Qed.

Lemma addToSet_Permutation `{Accumulator} (l : list ObjectId) :
  NoDup l → addToSet l ≡ₚ l.
Proof.
  intros Hnd. apply NoDup_Permutation; [apply addToSet_NoDup|done|].
  intros x. apply addToSet_elem_of.
Qed.

(** ** The startup job *)

Lemma marked_cons g c : marked (g :: c) = tail (duplicate_ids g) ++ marked c.
Proof. reflexivity. Qed.

Lemma collapse_loop_spec cursor db calls :
  NoDup (_id <$> db) → well_grouped cursor db →
  collapse_loop cursor db calls =
    Ok (filter (λ d, _id d ∉ marked cursor) db, calls ++ (call_of <$> cursor)).
Proof.
  revert db calls. induction cursor as [|g c IH]; intros db calls Hdb [Hk Hg].
  - simpl. rewrite app_nil_r, filter_all; [done|].
    intros d _. apply not_elem_of_nil.
  - destruct (Hg g) as (Hnd & Hne & Hin); [left|].
    rewrite fmap_cons in Hk. apply NoDup_cons in Hk as [Hkg Hk].
    destruct (duplicate_ids g) as [|x ids] eqn:E; [done|].
    apply NoDup_cons in Hnd as [Hx Hids].
    assert (Hsub : ∀ y, y ∈ ids → y ∈ _id <$> db).
    { intros y Hy. destruct (Hin y) as (d & Hd & <- & _); [by right|].
      by apply list_elem_of_fmap_2. }
    assert (Hdm : delete_many ids db
                  = (filter (λ d, _id d ∉ ids) db, length ids)).
    { rewrite <- (delete_many_count ids db Hdb Hids Hsub). reflexivity. }
    cbn [collapse_loop]. rewrite E. cbn [pop0]. rewrite Hdm, IH.
    + rewrite list_filter_filter, <- app_assoc, fmap_cons, marked_cons.
      unfold call_of at 2. rewrite E. cbn [tail app]. do 2 f_equal.
      apply list_filter_iff. intros d. rewrite not_elem_of_app. tauto.
    + by apply NoDup_ids_filter.
    + split; [done|]. intros g' Hg'.
      destruct (Hg g') as (Hnd' & Hne' & Hin'); [by right|].
      split_and!; [done|done|]. intros y Hy.
      destruct (Hin' y Hy) as (d & Hd & Hid & Ht).
      exists d. split_and!; [|done|done].
      apply list_elem_of_filter. split; [|done]. intros Hy'.
      destruct (Hin (_id d)) as (d2 & Hd2 & Hid2 & Ht2); [by right|].
      assert (d2 = d) by (by eapply (image_inj_on _id db)). subst d2.
      apply Hkg. rewrite <- Ht2, Ht. by apply list_elem_of_fmap_2.
Qed.

Section collapser.
Context (Acc : Accumulator) (db : Collection) (Hdb : NoDup (_id <$> db)).

(** The identifiers listed for a text are those of its members. *)
Lemma listed_elem_of t x :
  x ∈ addToSet (_id <$> members t db) ↔ ∃ d, d ∈ db ∧ text d = t ∧ _id d = x.
Proof.
  rewrite addToSet_elem_of, list_elem_of_fmap. unfold members.
  setoid_rewrite list_elem_of_filter. naive_solver.
Qed.

Lemma listed_length t :
  length (addToSet (_id <$> members t db)) = length (members t db).
Proof.
  rewrite <- (length_fmap _id (members t db)).
  apply Permutation_length, addToSet_Permutation.
  by apply NoDup_ids_filter.
Qed.

Lemma group_elem_of g :
  g ∈ aggregate db ↔
  1 < count g ∧ ∃ t, t ∈ text <$> db ∧
    g = mkGroup t (addToSet (_id <$> members t db)) (length (members t db)).
Proof.
  unfold aggregate, match_stage, group_stage.
  rewrite list_elem_of_filter, list_elem_of_fmap.
  setoid_rewrite elem_of_remove_dups. naive_solver.
Qed.

Lemma aggregate_well_grouped : well_grouped (aggregate db) db.
Proof.
  split.
  - unfold aggregate, match_stage, group_stage.
    eapply sublist_NoDup; [|apply fmap_sublist, sublist_filter].
    rewrite <- list_fmap_compose.
    rewrite (list_fmap_ext _ id (remove_dups (text <$> db)))
      by (intros; reflexivity).
    rewrite list_fmap_id. apply NoDup_remove_dups.
  - intros g (Hc & t & Ht & ->)%group_elem_of. simpl in *.
    split_and!.
    + apply addToSet_NoDup.
    + intros Hnil. rewrite <- listed_length, Hnil in Hc. simpl in Hc. lia.
    + intros x (d & Hd & Htd & Hid)%listed_elem_of. by exists d.
Qed.

(** Among stored documents, the marked ones are those that are not
    canonical. *)
Lemma marked_iff d :
  d ∈ db → _id d ∈ marked (aggregate db) ↔ ¬ canonical db d.
Proof.
  intros Hd. unfold canonical.
  assert (Hin : _id d ∈ addToSet (_id <$> members (text d) db))
    by (apply listed_elem_of; by exists d).
  pose proof (addToSet_NoDup (_id <$> members (text d) db)) as Hnd.
  pose proof (listed_length (text d)) as Hlen.
  unfold marked. rewrite list_elem_of_bind. split.
  - intros (g & Htl & (Hc & t & Ht & ->)%group_elem_of). simpl in *.
    assert (t = text d) as ->.
    { assert (Hx : _id d ∈ addToSet (_id <$> members t db)).
      { destruct (addToSet (_id <$> members t db)); [done|by right]. }
      apply listed_elem_of in Hx as (d' & Hd' & <- & Hid).
      f_equal. by eapply (image_inj_on _id db). }
    destruct (addToSet (_id <$> members (text d) db)) as [|h tl]; [done|].
    simpl in *. apply NoDup_cons in Hnd as [Hh _]. congruence.
  - intros Hhead.
    exists (mkGroup (text d) (addToSet (_id <$> members (text d) db))
                    (length (members (text d) db))).
    destruct (addToSet (_id <$> members (text d) db)) as [|h tl] eqn:E;
      [by apply elem_of_nil in Hin|].
    simpl in *. apply elem_of_cons in Hin as [Heq|Hin]; [congruence|].
    split; [done|]. apply group_elem_of. simpl. split.
    + destruct tl; [by apply elem_of_nil in Hin|]. simpl in Hlen. lia.
    + exists (text d). rewrite E. split; [by apply list_elem_of_fmap_2|done].
Qed.

(** The job ends normally: it leaves the canonical documents, in their
    original order, after one [delete_many] per duplicate group. *)
Lemma startup_db_client_spec :
  startup_db_client db =
    Ok (filter (canonical db) db, call_of <$> aggregate db).
Proof.
  unfold startup_db_client.
  rewrite collapse_loop_spec by (done || apply aggregate_well_grouped).
  do 2 f_equal. apply filter_ext_on. intros d Hd.
  rewrite (marked_iff d Hd). split; [apply dec_stable|tauto].
Qed.

(** After the job every text of the collection is borne by exactly one
    document: the canonical one of its group. *)
Lemma survivor_unique t :
  t ∈ text <$> db →
  ∃ d, members t (filter (canonical db) db) = [d] ∧ d ∈ db ∧ text d = t ∧
       canonical db d.
Proof.
  intros (d0 & -> & Hd0)%list_elem_of_fmap.
  assert (Hin : _id d0 ∈ addToSet (_id <$> members (text d0) db))
    by (apply listed_elem_of; by exists d0).
  destruct (addToSet (_id <$> members (text d0) db)) as [|h tl] eqn:E;
    [by apply elem_of_nil in Hin|].
  assert (Hh : h ∈ addToSet (_id <$> members (text d0) db))
    by (rewrite E; left).
  apply listed_elem_of in Hh as (d & Hd & Ht & Hid).
  assert (Hcan : canonical db d) by (unfold canonical; by rewrite Ht, E, Hid).
  exists d. split_and!; [|done|done|done].
  unfold members at 1. rewrite filter_comm. fold (members (text d0) db).
  rewrite (filter_ext_on _ (λ y, _id y = _id d)).
  - apply filter_unique_image; [by apply NoDup_ids_filter|].
    apply list_elem_of_filter. by split.
  - intros y [Hy _]%list_elem_of_filter. unfold canonical.
    rewrite Hy, E, Hid. simpl. split; [by intros [= ->]|by intros ->].
Qed.

End collapser.

Lemma aggregate_collapsed (Acc Acc' : Accumulator) (db : Collection) :
  NoDup (_id <$> db) →
  @aggregate Acc' (filter (@canonical Acc db) db) = [].
Proof.
  intros Hdb. unfold aggregate, match_stage, group_stage.
  apply filter_none. intros g (t & -> & Ht)%list_elem_of_fmap. simpl.
  rewrite elem_of_remove_dups in Ht.
  assert (Ht' : t ∈ text <$> db).
  { apply list_elem_of_fmap in Ht as (d & -> & Hd).
    apply list_elem_of_filter in Hd as [_ Hd]. by apply list_elem_of_fmap_2. }
  destruct (survivor_unique Acc db Hdb t Ht') as (d & -> & _). simpl. lia.
Qed.

(** C1 (as amended): on a collection with unique identifiers the startup
    job ends normally and leaves a sub-collection in which every text of
    the original collection is borne by exactly one document, namely the
    one whose identifier the [$addToSet] array of its group lists first;
    that document is the first-inserted one whenever the accumulator
    keeps insertion order. *)
Theorem collapse_keeps_first_listed (Acc : Accumulator) (db : Collection) :
  NoDup (_id <$> db) →
  ∃ db' calls,
    startup_db_client db = Ok (db', calls) ∧ sublist db' db ∧
    ∀ t, t ∈ text <$> db →
      ∃ d, members t db' = [d] ∧ d ∈ db ∧
           head (addToSet (_id <$> members t db)) = Some (_id d) ∧
           (OrderPreserving Acc → first_inserted t db = Some d).
Proof.
  intros Hdb. eexists _, _. split; [by apply startup_db_client_spec|].
  split; [apply sublist_filter|]. intros t Ht.
  destruct (survivor_unique Acc db Hdb t Ht) as (d & Hm & Hd & Htd & Hcan).
  exists d. unfold canonical in Hcan. rewrite Htd in Hcan.
  split_and!; [done|done|done|]. intros Hord.
  rewrite Hord in Hcan by (by apply NoDup_ids_filter).
  unfold first_inserted.
  destruct (members t db) as [|d1 m] eqn:E; [done|]. simpl in *.
  injection Hcan as Hid. f_equal.
  assert (Hd1 : d1 ∈ members t db) by (rewrite E; left).
  apply list_elem_of_filter in Hd1 as [_ Hd1].
  by eapply (image_inj_on _id db).
Qed.

Lemma collapse_keeps_first_listed_witness :
  ∃ db' calls,
    @startup_db_client insertion_order [q1; q2; q3] = Ok (db', calls) ∧
    sublist db' [q1; q2; q3] ∧
    ∀ t, t ∈ text <$> [q1; q2; q3] →
      ∃ d, members t db' = [d] ∧ d ∈ [q1; q2; q3] ∧
           head (@addToSet insertion_order (_id <$> members t [q1; q2; q3]))
             = Some (_id d) ∧
           (OrderPreserving insertion_order →
            first_inserted t [q1; q2; q3] = Some d).
Proof.
  apply (collapse_keeps_first_listed insertion_order [q1; q2; q3]).
  apply (bool_decide_unpack _). vm_compute. exact I.
Defined.

(** With an accumulator that lists the latest identifier first, the
    second-inserted black-hole question survives, not the first. *)
Lemma canonical_retention_fails :
  ¬ canonical_retention latest_order [q1; q2; q3].
Proof.
  intros H.
  assert (E : @startup_db_client latest_order [q1; q2; q3]
              = Ok ([q2; q3], [([1%N], 1)])) by (vm_compute; reflexivity).
  destruct (H _ _ E (text q1)) as (d & Hm & Hf).
  - apply list_elem_of_fmap_2. left.
  - vm_compute in Hm, Hf. congruence.
Qed.

(** C2: on a collection with unique identifiers, running the startup job
    a second time (whatever order the store then lists identifiers in)
    leaves the collection as the first run left it and issues no
    deletion. *)
Theorem collapse_idempotent (Acc Acc' : Accumulator) (db : Collection) :
  NoDup (_id <$> db) →
  ∃ db' calls,
    @startup_db_client Acc db = Ok (db', calls) ∧
    @startup_db_client Acc' db' = Ok (db', []).
Proof.
  intros Hdb. eexists _, _. split; [by apply startup_db_client_spec|].
  unfold startup_db_client at 1.
  by rewrite (aggregate_collapsed Acc Acc' db Hdb).
Qed.

Lemma collapse_idempotent_witness :
  ∃ db' calls,
    @startup_db_client latest_order [q1; q2; q3; q4] = Ok (db', calls) ∧
    @startup_db_client insertion_order db' = Ok (db', []).
Proof.
  apply (collapse_idempotent latest_order insertion_order [q1; q2; q3; q4]).
  apply (bool_decide_unpack _). vm_compute. exact I.
Defined.




(** ** The semantic matcher *)

Section semantic.
Context (B : Bson) (E : Embedder).

Lemma check_similarity_loop_spec question_text cursor acc :
  check_similarity_loop (nlp question_text) cursor acc =
    acc ++ (entry_for B E question_text
              <$> filter (passes E question_text) cursor).
Proof.
  revert acc. induction cursor as [|q cursor IH]; intros acc.
  - simpl. by rewrite app_nil_r.
  - cbn [check_similarity_loop]. rewrite filter_cons.
    destruct (decide (passes E question_text q)) as [Hp|Hp];
      unfold passes in Hp.
    + rewrite Hp, IH, fmap_cons, <- app_assoc. reflexivity.
    + apply not_true_is_false in Hp. rewrite Hp. apply IH.
Qed.

Lemma check_similarity_spec question_text db :
  check_similarity question_text db =
    let found :=
      entry_for B E question_text <$> filter (passes E question_text) db in
    mkSimilarityResponse found (length found).
Proof.
  unfold check_similarity, find_all. cbv zeta.
  by rewrite check_similarity_loop_spec.
Qed.

End semantic.

(** C4: a stored question is among the results of [check_similarity]
    exactly when its similarity to the input is strictly above 0.7; a
    question whose similarity is exactly 0.7 is not reported. *)
Theorem check_similarity_strict_threshold (B : Bson) (E : Embedder)
    (question_text : string) (db : Collection) (q : Document) :
  q ∈ db →
  (entry_for B E question_text q
     ∈ similar_questions (check_similarity question_text db)
   ↔ (0.7 <? similarity (nlp question_text) (nlp (text q)))%float = true)
  ∧ (similarity (nlp question_text) (nlp (text q)) = 0.7%float →
     entry_for B E question_text q
       ∉ similar_questions (check_similarity question_text db)).
Proof.
  intros Hq. rewrite check_similarity_spec. cbn [similar_questions].
  assert (Hiff : entry_for B E question_text q
                   ∈ entry_for B E question_text
                       <$> filter (passes E question_text) db
                 ↔ passes E question_text q).
  { rewrite list_elem_of_fmap. split.
    - intros (q' & Heq & [Hp _]%list_elem_of_filter).
      unfold passes in *. unfold entry_for, similar_entry in Heq.
      injection Heq as _ Ht _ _. by rewrite Ht.
    - intros Hp. exists q. split; [done|]. by apply list_elem_of_filter. }
  split; [exact Hiff|].
  intros H07 Hin. apply Hiff in Hin. unfold passes in Hin.
  rewrite H07 in Hin. vm_compute in Hin. discriminate.
Qed.

Lemma check_similarity_strict_threshold_witness :
  (entry_for hex_bson stub_embedder "a" (mkDocument 2 "x" 0)
     ∈ similar_questions
         (@check_similarity hex_bson stub_embedder "a"
            [mkDocument 1 "a" 0; mkDocument 2 "x" 0; mkDocument 3 "y" 7])
   ↔ (0.7 <? @similarity stub_embedder (@nlp stub_embedder "a")
                (@nlp stub_embedder "x"))%float = true)
  ∧ (@similarity stub_embedder (@nlp stub_embedder "a")
       (@nlp stub_embedder "x") = 0.7%float →
     entry_for hex_bson stub_embedder "a" (mkDocument 2 "x" 0)
       ∉ similar_questions
           (@check_similarity hex_bson stub_embedder "a"
              [mkDocument 1 "a" 0; mkDocument 2 "x" 0; mkDocument 3 "y" 7])).
Proof.
  apply (check_similarity_strict_threshold hex_bson stub_embedder "a"
           [mkDocument 1 "a" 0; mkDocument 2 "x" 0; mkDocument 3 "y" 7]
           (mkDocument 2 "x" 0)).
  apply (bool_decide_unpack _). vm_compute. exact I.
Defined.

(** *** Rounding *)

Lemma round_half_even_nearest m e :
  nearest_hundredths m e (round_half_even (Z.pos m * 100) e).
Proof.
  unfold nearest_hundredths, round_half_even. cbv zeta.
  destruct (Z.leb_spec 0 e) as [He|He].
  - rewrite (Z.max_r 0 e), (Z.max_l 0 (- e)) by lia.
    rewrite Z.pow_0_r.
    replace (2 * (100 * Z.pos m * 2 ^ e) - 2 * (Z.pos m * 100 * 2 ^ e) * 1)%Z
      with 0%Z by ring.
    simpl. split; [lia|discriminate].
  - rewrite (Z.max_l 0 e), (Z.max_r 0 (- e)) by lia.
    rewrite Z.pow_0_r.
    assert (Hd : (0 < 2 ^ (- e))%Z) by (apply Z.pow_pos_nonneg; lia).
    set (d := (2 ^ (- e))%Z) in *. set (a := (Z.pos m * 100)%Z).
    pose proof (Z.div_mod a d ltac:(lia)) as Ha.
    pose proof (Z.mod_pos_bound a d Hd) as Hr.
    set (q := (a / d)%Z) in *. set (r := (a mod d)%Z) in *.
    assert (Hu : (100 * Z.pos m * 1 = d * q + r)%Z) by (subst a; lia).
    destruct (Z.compare_spec (2 * r) d) as [Heq|Hlt|Hgt].
    + destruct (Z.even q) eqn:Hq.
      * split; [lia|done].
      * split; [lia|]. intros _.
        replace (q + 1)%Z with (Z.succ q) by lia.
        by rewrite Z.even_succ, <- Z.negb_even, Hq.
    + split; [lia|lia].
    + split; [lia|lia].
Qed.

(** The nearest number of hundredths is unique. *)
Lemma nearest_hundredths_unique m e k k' :
  nearest_hundredths m e k → nearest_hundredths m e k' → k = k'.
Proof.
  unfold nearest_hundredths. cbv zeta.
  set (u := (100 * Z.pos m * 2 ^ Z.max 0 e)%Z).
  assert (Hd : (0 < 2 ^ Z.max 0 (- e))%Z) by (apply Z.pow_pos_nonneg; lia).
  set (d := (2 ^ Z.max 0 (- e))%Z) in *.
  intros [H1 E1] [H2 E2].
  assert (Hk : k = k' ∨ k = (k' + 1)%Z ∨ k' = (k + 1)%Z) by nia.
  destruct Hk as [?|[->| ->]]; [done| |].
  - assert (Z.even k' = true) by (apply E2; lia).
    assert (Z.even (k' + 1) = true) by (apply E1; lia).
    replace (k' + 1)%Z with (Z.succ k') in * by lia.
    rewrite Z.even_succ, <- Z.negb_even in *. by destruct (Z.even k').
  - assert (Z.even k = true) by (apply E1; lia).
    assert (Z.even (k + 1) = true) by (apply E2; lia).
    replace (k + 1)%Z with (Z.succ k) in * by lia.
    rewrite Z.even_succ, <- Z.negb_even in *. by destruct (Z.even k).
Qed.

(** [round2] rounds to two decimal places. *)
Lemma round2_rounded x : rounded_to_2_places x (round2 x).
Proof.
  unfold rounded_to_2_places, round2.
  destruct (Prim2SF x) as [| | |s m e]; [done..|].
  exists (round_half_even (Z.pos m * 100) e).
  split; [apply round_half_even_nearest|].
  unfold hundredth_of.
  destruct (round_half_even (Z.pos m * 100) e); [|done|];
    by destruct s.
Qed.

Lemma round2_rounded_to x r : round2 x = r → rounded_to_2_places x r.
Proof. intros <-. apply round2_rounded. Qed.

(** Rounding to two decimal places has one result. *)
Lemma rounded_to_2_places_unique x r r' :
  rounded_to_2_places x r → rounded_to_2_places x r' → r = r'.
Proof.
  unfold rounded_to_2_places.
  destruct (Prim2SF x) as [| | |s m e]; [congruence..|].
  intros (k & Hk & ->) (k' & Hk' & ->).
  by rewrite (nearest_hundredths_unique m e k k' Hk Hk').
Qed.

(** C5: the entries of [check_similarity] are, in store order, those of
    the questions whose similarity is strictly above 0.7; each carries
    the identifier, text and creation time of its question, and its score
    is the similarity times 100 rounded to two decimal places: the float
    of the nearest number of hundredths (the even one on a tie), and no
    other value.  Rounding 0.125, 2.675, 81.23456 and -0.001 that way
    gives 0.12, 2.67, 81.23 and -0.0. *)
Theorem check_similarity_score (B : Bson) (E : Embedder)
    (question_text : string) (db : Collection) :
  similar_questions (check_similarity question_text db) =
    (λ q, Similar.mk (str (_id q)) (text q) (created_at q)
            (round2 (similarity (nlp question_text) (nlp (text q)) * 100)))
      <$> filter (passes E question_text) db
  ∧ Forall2
      (λ q e,
         Similar.id e = str (_id q) ∧ Similar.text e = text q
         ∧ Similar.created_at e = created_at q
         ∧ rounded_to_2_places
             (similarity (nlp question_text) (nlp (text q)) * 100)
             (Similar.score e)
         ∧ ∀ r, rounded_to_2_places
                  (similarity (nlp question_text) (nlp (text q)) * 100) r →
                r = Similar.score e)
      (filter (λ q, (0.7 <? similarity (nlp question_text)
                              (nlp (text q)))%float = true) db)
      (similar_questions (check_similarity question_text db))
  ∧ rounded_to_2_places 0.125 0.12
  ∧ rounded_to_2_places 2.675 2.67
  ∧ rounded_to_2_places (0.8123456 * 100) 81.23
  ∧ rounded_to_2_places (-0.001) (-0).
Proof.
  rewrite check_similarity_spec. cbn [similar_questions].
  split; [done|]. split.
  - apply Forall2_fmap_r, Forall_Forall2_diag, Forall_forall.
    intros q _. unfold entry_for, similar_entry. simpl.
    split_and!; [done|done|done|apply round2_rounded|].
    intros r Hr. eapply rounded_to_2_places_unique; [exact Hr|].
    apply round2_rounded.
  - split_and!; apply round2_rounded_to; vm_compute; reflexivity.
Qed.

(** [round2] on sample values: ties go to the even hundredth, and the
    binary value of the argument decides. *)
Example round2_samples :
  round2 0.125 = 0.12%float ∧ round2 0.375 = 0.38%float ∧
  round2 2.675 = 2.67%float ∧ round2 (0.8571234 * 100) = 85.71%float ∧
  round2 (0.7 * 100) = 70%float ∧ round2 (-0.001) = (-0)%float.
Proof. vm_compute. repeat split. Qed.

Example check_similarity_stub :
  @check_similarity hex_bson stub_embedder "a"
    [mkDocument 1 "a" 0; mkDocument 2 "x" 0; mkDocument 3 "y" 7] =
  mkSimilarityResponse
    [Similar.mk "000000000000000000000001" "a" 0 100%float;
     Similar.mk "000000000000000000000003" "y" 7 81.23%float] 2.
Proof. vm_compute. reflexivity. Qed.

(** ** The lexical matcher *)

Lemma check_similarity_2_loop_spec (B : Bson) cursor acc :
  check_similarity_2_loop cursor acc =
    acc ++ (with_str_id <$> filter relevant cursor).
Proof.
  revert acc. induction cursor as [|doc cursor IH]; intros acc.
  - simpl. by rewrite app_nil_r.
  - cbn [check_similarity_2_loop]. rewrite filter_cons.
    destruct (decide (relevant doc)) as [Hr|Hr]; unfold relevant in Hr.
    + rewrite Hr, IH, fmap_cons, <- app_assoc. reflexivity.
    + apply not_true_is_false in Hr. rewrite Hr. apply IH.
Qed.

Lemma no_score_not_relevant (doc : Hit.t) :
  Hit.score doc = None → ¬ relevant doc.
Proof.
  unfold relevant, get_score. intros ->. simpl. vm_compute. discriminate.
Qed.

Lemma elem_of_insert_by_score (h x : Hit.t) (hits : list Hit.t) :
  x ∈ insert_by_score h hits ↔ x = h ∨ x ∈ hits.
Proof.
  induction hits as [|h' hits IH]; simpl.
  - rewrite list_elem_of_singleton, elem_of_nil. tauto.
  - destruct (get_score h' <=? get_score h)%float.
    + by rewrite elem_of_cons.
    + rewrite !elem_of_cons, IH. tauto.
Qed.

Lemma elem_of_sorted_hits (x : Hit.t) (hits : list Hit.t) :
  x ∈ foldr insert_by_score [] hits ↔ x ∈ hits.
Proof.
  induction hits as [|h hits IH]; simpl; [done|].
  rewrite elem_of_insert_by_score, IH, elem_of_cons. tauto.
Qed.

Lemma length_insert_by_score (h : Hit.t) (hits : list Hit.t) :
  length (insert_by_score h hits) = S (length hits).
Proof.
  induction hits as [|h' hits IH]; simpl; [done|].
  destruct (get_score h' <=? get_score h)%float; simpl; by rewrite ?IH.
Qed.

Lemma relevant_iff (doc : Hit.t) :
  relevant doc ↔ scores_above_threshold doc = true.
Proof.
  unfold relevant, get_score, scores_above_threshold.
  destruct (Hit.score doc) as [s|]; simpl; [done|].
  split; [|done]. vm_compute. discriminate.
Qed.

Lemma check_similarity_2_on_spec (B : Bson) (cursor : list Hit.t) :
  check_similarity_2_on cursor =
    mkSimilarityResponse
      (as_returned B
         <$> filter (λ doc, scores_above_threshold doc = true) cursor)
      (length (filter (λ doc, scores_above_threshold doc = true) cursor)).
Proof.
  unfold check_similarity_2_on. cbv zeta.
  rewrite check_similarity_2_loop_spec. cbn [app].
  rewrite (list_filter_iff relevant
             (λ doc, scores_above_threshold doc = true))
    by apply relevant_iff.
  rewrite length_fmap. reflexivity.
Qed.

(** C6: [check_similarity_2] returns exactly the hits of the text search
    whose score is strictly above 2.5, in cursor order, each with its
    identifier turned into a string and its other fields untouched, and
    counts them.  [doc.get("score", 0)] is the score when there is one
    and 0 otherwise, so a hit without a score is left out, while every
    hit scoring above 2.5 is returned.  In terms of the store: a document
    is returned exactly when it comes from a stored question that matches
    the search with a [textScore] strictly above 2.5.  Of two hits
    scoring 3.0 and 2.0 only the first is returned, with count 1. *)
Theorem check_similarity_2_threshold (B : Bson) (I : TextIndex)
    (question_text : string) (db : Collection) (cursor : list Hit.t) :
  similar_questions (check_similarity_2_on cursor)
    = as_returned B
        <$> filter (λ doc, scores_above_threshold doc = true) cursor
  ∧ similarity_count (check_similarity_2_on cursor)
    = length (filter (λ doc, scores_above_threshold doc = true) cursor)
  ∧ (∀ doc,
       get_score doc = default 0%float (Hit.score doc)
       ∧ (Hit.score doc = None →
          as_returned B doc
            ∉ similar_questions (check_similarity_2_on cursor)))
  ∧ (∀ doc s, doc ∈ cursor → Hit.score doc = Some s →
       (2.5 <? s)%float = true →
       as_returned B doc ∈ similar_questions (check_similarity_2_on cursor))
  ∧ (∀ r, r ∈ similar_questions (check_similarity_2_on cursor) →
       ∃ doc s, doc ∈ cursor ∧ Hit.score doc = Some s
                ∧ (2.5 <? s)%float = true ∧ r = as_returned B doc)
  ∧ similar_questions (check_similarity_2 question_text db)
    = as_returned B
        <$> filter (λ doc, scores_above_threshold doc = true)
              (text_search question_text db)
  ∧ (∀ r, r ∈ similar_questions (check_similarity_2 question_text db) ↔
       ∃ q s, q ∈ db ∧ textScore question_text (text q) = Some s
              ∧ (2.5 <? s)%float = true
              ∧ r = Hit.mk (StrV (str (_id q))) (text q) (created_at q)
                      (Some s))
  ∧ @check_similarity_2_on hex_bson
      [Hit.mk (OidV 1) "b" 0 (Some 3%float);
       Hit.mk (OidV 2) "a" 0 (Some 2%float)]
    = mkSimilarityResponse
        [Hit.mk (StrV "000000000000000000000001") "b" 0 (Some 3%float)] 1.
Proof.
  assert (Hin : ∀ (c : list Hit.t) r,
            r ∈ similar_questions (check_similarity_2_on c) ↔
            ∃ doc s, doc ∈ c ∧ Hit.score doc = Some s
                     ∧ (2.5 <? s)%float = true ∧ r = as_returned B doc).
  { intros c r. rewrite check_similarity_2_on_spec. cbn [similar_questions].
    rewrite list_elem_of_fmap. split.
    - intros (doc & -> & [Hs Hd]%list_elem_of_filter).
      unfold scores_above_threshold in Hs.
      destruct (Hit.score doc) as [s|] eqn:Es; [|done].
      by exists doc, s.
    - intros (doc & s & Hd & Es & Hs & ->). exists doc. split; [done|].
      apply list_elem_of_filter. split; [|done].
      unfold scores_above_threshold. by rewrite Es. }
  unfold check_similarity_2. split_and!.
  - by rewrite check_similarity_2_on_spec.
  - by rewrite check_similarity_2_on_spec.
  - intros doc. split; [done|]. intros Hnone Hr.
    apply Hin in Hr as (doc' & s & _ & Es & _ & Heq).
    apply (f_equal Hit.score) in Heq. simpl in Heq. congruence.
  - intros doc s Hd Es Hs. apply Hin. by exists doc, s.
  - intros r Hr. by apply Hin.
  - by rewrite check_similarity_2_on_spec.
  - intros r. rewrite Hin. unfold text_search. split.
    + intros (doc & s & Hd & Es & Hs & ->).
      apply elem_of_sorted_hits, list_elem_of_omap in Hd as (q & Hq & Hd).
      destruct (textScore question_text (text q)) as [s'|] eqn:Et; [|done].
      simpl in Hd. injection Hd as <-. simpl in Es. injection Es as ->.
      by exists q, s.
    + intros (q & s & Hq & Et & Hs & ->).
      exists (Hit.mk (OidV (_id q)) (text q) (created_at q) (Some s)), s.
      split_and!; [|done|done|done].
      apply elem_of_sorted_hits, list_elem_of_omap. exists q.
      split; [done|]. by rewrite Et.
  - by vm_compute.
Qed.

(** Hits scoring 3.0 and 2.0: only the first is returned. *)
Example check_similarity_2_two_hits :
  @check_similarity_2_on hex_bson
    [Hit.mk (OidV 1) "b" 0 (Some 3%float); Hit.mk (OidV 2) "a" 0 (Some 2%float)]
  = mkSimilarityResponse
      [Hit.mk (StrV "000000000000000000000001") "b" 0 (Some 3%float)] 1.
Proof. vm_compute. reflexivity. Qed.

Example check_similarity_2_stub :
  similarity_count
    (@check_similarity_2 hex_bson stub_index "q"
       [mkDocument 1 "a" 0; mkDocument 2 "c" 0; mkDocument 3 "b" 7;
        mkDocument 4 "z" 7]) = 2.
Proof. vm_compute. reflexivity. Qed.

(** ** The word-overlap counter *)

Lemma check_words_loop_spec input cursor n :
  check_words_loop (word_set input) cursor n =
    n + length (filter (overlaps input) cursor).
Proof.
  revert n. induction cursor as [|q cursor IH]; intros n.
  - simpl. lia.
  - cbn [check_words_loop]. rewrite filter_cons. cbv zeta.
    fold (overlaps input q).
    destruct (decide (overlaps input q)); rewrite IH; simpl; lia.
Qed.

Lemma word_set_empty : word_set EmptyString = ∅.
Proof. reflexivity. Qed.

Lemma check_words_filter request_text db :
  match_count (check_words request_text db)
    = length (filter (overlaps request_text) db).
Proof.
  unfold check_words, find_all. cbv zeta. simpl.
  by rewrite check_words_loop_spec.
Qed.

Lemma check_words_single request_text q :
  match_count (check_words request_text [q])
    = if decide (overlaps request_text q) then 1 else 0.
Proof.
  rewrite check_words_filter, filter_cons. by case_decide.
Qed.

Lemma overlaps_iff request_text q :
  overlaps request_text q ↔
  ∃ w1 w2, w1 ∈ split request_text ∧ w2 ∈ split (text q)
           ∧ lower w1 = lower w2.
Proof.
  unfold overlaps, word_set. split.
  - intros Hne. apply set_choose_L in Hne as [w Hw].
    apply elem_of_intersection in Hw as [H1 H2].
    apply elem_of_list_to_set, list_elem_of_fmap in H1 as (w1 & -> & H1).
    apply elem_of_list_to_set, list_elem_of_fmap in H2 as (w2 & Heq & H2).
    by exists w1, w2.
  - intros (w1 & w2 & H1 & H2 & Heq).
    apply (non_empty_inhabited_L (lower w1)), elem_of_intersection.
    split; apply elem_of_list_to_set, list_elem_of_fmap.
    + by exists w1.
    + by exists w2.
Qed.

(** *** Words *)

Lemma app_cons c s t : String c s +:+ t = String c (s +:+ t).
Proof. reflexivity. Qed.

Lemma app_empty_l t : EmptyString +:+ t = t.
Proof. reflexivity. Qed.



Lemma no_whitespace_snoc w c :
  no_whitespace w = true → isspace c = false →
  no_whitespace (w +:+ String c EmptyString) = true.
Proof.
  intros Hw Hc. induction w as [|a w IH].
  - rewrite app_empty_l. cbn [no_whitespace]. by rewrite Hc.
  - rewrite app_cons. cbn [no_whitespace] in *.
    apply andb_true_iff in Hw as [Ha Hw]. by rewrite Ha, IH.
Qed.








(** Case-insensitive overlap on one word; no overlap otherwise. *)
Example check_words_alpha_beta :
  check_words "Alpha Beta" [mkDocument 1 "beta gamma" 0]
    = mkWordCheckResponse 1
  ∧ check_words "Alpha Beta" [mkDocument 2 "gamma delta" 0]
    = mkWordCheckResponse 0
  ∧ check_words "a b c" [mkDocument 3 "c B  a" 0] = mkWordCheckResponse 1.
Proof. vm_compute. repeat split. Qed.

(** ** Empty collection *)

(** C8: on an empty collection the three matchers return no result and
    count 0, whatever the input. *)
Theorem matchers_on_empty_collection (B : Bson) (E : Embedder) (I : TextIndex)
    (input : string) :
  check_similarity input [] = mkSimilarityResponse [] 0
  ∧ check_similarity_2 input [] = mkSimilarityResponse [] 0
  ∧ check_words input [] = mkWordCheckResponse 0.
Proof. repeat split. Qed.

(** ** [delete_question] *)

Lemma delete_one_count oid db :
  (delete_one oid db).2 = (if decide (oid ∈ _id <$> db) then 1 else 0).
Proof.
  induction db as [|d db IH]; [done|].
  cbn [delete_one]. rewrite fmap_cons.
  destruct (decide (_id d = oid)) as [<-|Hne].
  - simpl. rewrite decide_True; [done|left].
  - destruct (delete_one oid db) as [r n]. simpl in *. rewrite IH.
    destruct (decide (oid ∈ _id <$> db)) as [Hin|Hin].
    + rewrite decide_True; [done|by right].
    + rewrite decide_False; [done|].
      intros [Heq|Hin']%elem_of_cons; [by apply Hne|by apply Hin].
Qed.

Lemma delete_one_absent oid db :
  oid ∉ _id <$> db → (delete_one oid db).1 = db.
Proof.
  induction db as [|d db IH]; [done|].
  rewrite fmap_cons, not_elem_of_cons. intros [Hne Hin].
  cbn [delete_one]. rewrite decide_False by done.
  specialize (IH Hin). destruct (delete_one oid db) as [r n].
  simpl in *. by rewrite IH.
Qed.

(** C9: for an identifier the [ObjectId] constructor accepts,
    [delete_question] raises the 404 "Question not found" error exactly
    when the store's [deleted_count] is 0, that is when no stored
    document has that identifier (the collection is then unchanged);
    otherwise it returns the deletion message. *)
Theorem delete_question_not_found (B : Bson) (question_id : string)
    (oid : ObjectId) (db : Collection) :
  ObjectId_from_str question_id = Ok oid →
  (delete_question question_id db
     = ((delete_one oid db).1, Raise (HTTPException 404 "Question not found"))
   ↔ (delete_one oid db).2 = 0)
  ∧ ((delete_one oid db).2 ≠ 0 →
     delete_question question_id db
       = ((delete_one oid db).1, Ok "Question deleted successfully"))
  ∧ ((delete_one oid db).2 = 0 ↔ oid ∉ _id <$> db)
  ∧ (oid ∉ _id <$> db →
     delete_question question_id db
       = (db, Raise (HTTPException 404 "Question not found"))).
Proof.
  intros Hoid.
  assert (Hz : (delete_one oid db).2 = 0 ↔ oid ∉ _id <$> db).
  { rewrite delete_one_count. case_decide; split; (done || lia). }
  unfold delete_question. rewrite Hoid.
  destruct (delete_one oid db) as [db' n] eqn:Hd. cbn [fst snd] in *.
  split_and!.
  - destruct (decide (n = 0)); split; (done || congruence).
  - intros Hn. by rewrite decide_False.
  - exact Hz.
  - intros Hin. rewrite decide_True by (by apply Hz).
    f_equal. pose proof (delete_one_absent oid db Hin) as Ha.
    by rewrite Hd in Ha.
Qed.

Lemma delete_question_not_found_witness :
  (@delete_question hex_bson "000000000000000000000009" [q1; q2]
     = ((delete_one 9%N [q1; q2]).1,
        Raise (HTTPException 404 "Question not found"))
   ↔ (delete_one 9%N [q1; q2]).2 = 0)
  ∧ ((delete_one 9%N [q1; q2]).2 ≠ 0 →
     @delete_question hex_bson "000000000000000000000009" [q1; q2]
       = ((delete_one 9%N [q1; q2]).1, Ok "Question deleted successfully"))
  ∧ ((delete_one 9%N [q1; q2]).2 = 0 ↔ 9%N ∉ _id <$> [q1; q2])
  ∧ (9%N ∉ _id <$> [q1; q2] →
     @delete_question hex_bson "000000000000000000000009" [q1; q2]
       = ([q1; q2], Raise (HTTPException 404 "Question not found"))).
Proof.
  apply (delete_question_not_found hex_bson "000000000000000000000009" 9%N
           [q1; q2]).
  vm_compute. reflexivity.
Defined.

Example delete_question_samples :
  @delete_question hex_bson "000000000000000000000001" [q1; q2]
    = ([q2], Ok "Question deleted successfully")
  ∧ @delete_question hex_bson "000000000000000000000009" [q1; q2]
    = ([q1; q2], Raise (HTTPException 404 "Question not found"))
  ∧ @delete_question hex_bson "not-an-id" [q1; q2]
    = ([q1; q2], Raise InvalidId).
Proof. vm_compute. repeat split. Qed.

(** ** [create_question] *)

Lemma foldr_max_ge (l : list N) (x : N) : x ∈ l → (x ≤ foldr N.max 0 l)%N.
Proof.
  induction l as [|a l IH]; [by intros ?%elem_of_nil|].
  intros [->|Hx]%elem_of_cons; simpl; [lia|].
  specialize (IH Hx). lia.
Qed.

Lemma fresh_id_fresh db : fresh_id db ∉ _id <$> db.
Proof.
  intros Hin. apply foldr_max_ge in Hin. unfold fresh_id in Hin. lia.
Qed.

(** C10: whatever the collection holds, [create_question] appends a
    document with the given text, the clock reading and an identifier not
    in use, and returns it; the count it reads does not enter the result,
    and the collection grows by one. *)
Theorem create_question_unconditional (B : Bson) (question_text : string)
    (utcnow : datetime) (db : Collection) :
  ∃ oid,
    (oid ∉ _id <$> db)
    ∧ create_question question_text utcnow db
      = (db ++ [mkDocument oid question_text utcnow],
         Question.mk (str oid) question_text utcnow)
    ∧ count_documents (create_question question_text utcnow db).1
      = S (count_documents db).
Proof.
  exists (fresh_id db). split; [apply fresh_id_fresh|].
  split; [reflexivity|].
  unfold create_question, insert_one, count_documents. simpl.
  rewrite length_app. simpl. lia.
Qed.

(** Creating a question keeps identifiers unique. *)
Lemma create_question_NoDup (B : Bson) question_text utcnow db :
  NoDup (_id <$> db) →
  NoDup (_id <$> (create_question question_text utcnow db).1).
Proof.
  intros Hnd. unfold create_question, insert_one. simpl.
  rewrite fmap_app. apply NoDup_app. split_and!; [done| |apply NoDup_singleton].
  intros x Hx ->%list_elem_of_singleton. by apply (fresh_id_fresh db).
Qed.

Example create_question_sample :
  @create_question hex_bson "hi" 5 [q1; q2]
  = ([q1; q2; mkDocument 3 "hi" 5],
     Question.mk "000000000000000000000003" "hi" 5).
Proof. vm_compute. reflexivity. Qed.

(** * Further properties *)

(** ** The startup job on any collection *)

Lemma sum_list_app (l k : list nat) :
  sum_list (l ++ k) = sum_list l + sum_list k.
Proof. induction l as [|a l IH]; simpl; lia. Qed.

Lemma aggregate_nonempty (Acc : Accumulator) (db : Collection) :
  Forall (λ g, duplicate_ids g ≠ []) (aggregate db).
Proof.
  apply Forall_forall. intros g (Hc & t & _ & ->)%group_elem_of.
  simpl in *. intros Hnil.
  destruct (members t db) as [|d m] eqn:E; [simpl in Hc; lia|].
  assert (Hin : _id d ∈ addToSet (_id <$> (d :: m)))
    by (apply addToSet_elem_of; left).
  rewrite Hnil in Hin. by apply elem_of_nil in Hin.
Qed.

(** The loop ends normally on groups that list an identifier; it only
    removes documents, and the counts it records account for them. *)
Lemma collapse_loop_total cursor db calls :
  Forall (λ g, duplicate_ids g ≠ []) cursor →
  ∃ db' calls',
    collapse_loop cursor db calls = Ok (db', calls') ∧
    sublist db' db ∧
    length db' + sum_list (calls'.*2) = length db + sum_list (calls.*2).
Proof.
  revert db calls. induction cursor as [|g c IH]; intros db calls Hne.
  - exists db, calls. by split_and!.
  - apply Forall_cons in Hne as [Hg Hne].
    cbn [collapse_loop]. destruct (duplicate_ids g) as [|x ids]; [done|].
    cbn [pop0]. unfold delete_many. cbv zeta.
    destruct (IH (filter (λ d, _id d ∉ ids) db)
                 (calls ++ [(ids, length db
                                  - length (filter (λ d, _id d ∉ ids) db))])
                 Hne) as (db' & calls' & Heq & Hsub & Hlen).
    exists db', calls'. split_and!; [done| |].
    + etrans; [exact Hsub|apply sublist_filter].
    + rewrite fmap_app, sum_list_app in Hlen. simpl in Hlen.
      pose proof (length_filter (λ d, _id d ∉ ids) db). lia.
Qed.

(** X1: the startup job never raises: [pop(0)] always finds an identifier
    (also when identifiers repeat), and what the job leaves is the
    collection with some documents removed, the others in their order. *)
Theorem startup_db_client_never_raises (Acc : Accumulator) (db : Collection) :
  ∃ db' calls,
    startup_db_client db = Ok (db', calls) ∧ sublist db' db.
Proof.
  destruct (collapse_loop_total (aggregate db) db [] (aggregate_nonempty Acc db))
    as (db' & calls & Heq & Hsub & _).
  by exists db', calls.
Qed.

(** X2: the [deleted_count]s of the [delete_many] calls add up to the
    number of documents the job removed. *)
Theorem startup_db_client_deleted_total (Acc : Accumulator) (db : Collection) :
  ∃ db' calls,
    startup_db_client db = Ok (db', calls) ∧
    get_questions db' + sum_list (calls.*2) = get_questions db.
Proof.
  destruct (collapse_loop_total (aggregate db) db [] (aggregate_nonempty Acc db))
    as (db' & calls & Heq & _ & Hlen).
  exists db', calls. split; [done|].
  unfold get_questions, count_documents. simpl in Hlen. lia.
Qed.

(** With pairwise distinct texts no group has more than one member. *)
Lemma aggregate_distinct_texts (Acc : Accumulator) (db : Collection) :
  NoDup (text <$> db) → aggregate db = [].
Proof.
  intros Hnd. unfold aggregate, match_stage, group_stage.
  apply filter_none. intros g (t & -> & Ht)%list_elem_of_fmap. simpl.
  rewrite elem_of_remove_dups in Ht.
  apply list_elem_of_fmap in Ht as (d & -> & Hd).
  unfold members. rewrite (filter_unique_image text db d Hnd Hd). simpl. lia.
Qed.

(** X3: on a collection whose texts are pairwise distinct the startup job
    changes nothing and issues no deletion. *)
Theorem startup_db_client_distinct_texts (Acc : Accumulator) (db : Collection) :
  NoDup (text <$> db) →
  startup_db_client db = Ok (db, []).
Proof.
  intros Hnd. unfold startup_db_client.
  by rewrite (aggregate_distinct_texts Acc db Hnd).
Qed.

Lemma startup_db_client_distinct_texts_witness :
  @startup_db_client latest_order [q1; q3] = Ok ([q1; q3], []).
Proof.
  apply (startup_db_client_distinct_texts latest_order [q1; q3]).
  apply (bool_decide_unpack _). vm_compute. exact I.
Defined.

Lemma NoDup_image_of_small_fibres {A B : Type} `{EqDecision B} (f : A → B)
    (l : list A) :
  (∀ x, x ∈ l → length (filter (λ y, f y = f x) l) ≤ 1) → NoDup (f <$> l).
Proof.
  induction l as [|a l IH]; intros Hl; [apply NoDup_nil_2|].
  rewrite fmap_cons. apply NoDup_cons. split.
  - intros (y & Heq & Hy)%list_elem_of_fmap.
    specialize (Hl a). rewrite filter_cons_True in Hl by done.
    assert (Hin : y ∈ filter (λ z, f z = f a) l)
      by (apply list_elem_of_filter; by split).
    destruct (filter (λ z, f z = f a) l); [by apply elem_of_nil in Hin|].
    simpl in Hl. assert (a ∈ a :: l) by left. specialize (Hl ltac:(done)). lia.
  - apply IH. intros x Hx. specialize (Hl x ltac:(by right)).
    rewrite filter_cons in Hl. case_decide; simpl in Hl; lia.
Qed.

(** X4: on a collection with unique identifiers the job leaves pairwise
    distinct texts, the same texts as before, so that [get_questions]
    then reports the number of distinct texts. *)
Theorem startup_db_client_distinct_after (Acc : Accumulator) (db : Collection) :
  NoDup (_id <$> db) →
  ∃ db' calls,
    startup_db_client db = Ok (db', calls) ∧
    NoDup (text <$> db') ∧
    text <$> db' ≡ₚ remove_dups (text <$> db) ∧
    get_questions db' = length (remove_dups (text <$> db)).
Proof.
  intros Hdb. eexists _, _. split; [by apply startup_db_client_spec|].
  assert (Hnd : NoDup (text <$> filter (canonical db) db)).
  { apply NoDup_image_of_small_fibres. intros x [_ Hx]%list_elem_of_filter.
    destruct (survivor_unique Acc db Hdb (text x)) as (d & Hm & _);
      [by apply list_elem_of_fmap_2|].
    unfold members in Hm. by rewrite Hm. }
  assert (Hperm : text <$> filter (canonical db) db
                  ≡ₚ remove_dups (text <$> db)).
  { apply NoDup_Permutation; [done|apply NoDup_remove_dups|].
    intros t. rewrite elem_of_remove_dups. split.
    - intros (d & -> & [_ Hd]%list_elem_of_filter)%list_elem_of_fmap.
      by apply list_elem_of_fmap_2.
    - intros Ht.
      destruct (survivor_unique Acc db Hdb t Ht) as (d & Hm & _).
      assert (Hd : d ∈ members t (filter (canonical db) db))
        by (rewrite Hm; left).
      apply list_elem_of_filter in Hd as [<- Hd].
      by apply list_elem_of_fmap_2. }
  split_and!; [done|done|].
  unfold get_questions, count_documents.
  by rewrite <- (length_fmap text), Hperm.
Qed.

Lemma startup_db_client_distinct_after_witness :
  ∃ db' calls,
    @startup_db_client latest_order [q1; q2; q3; q4] = Ok (db', calls) ∧
    NoDup (text <$> db') ∧
    text <$> db' ≡ₚ remove_dups (text <$> [q1; q2; q3; q4]) ∧
    get_questions db' = length (remove_dups (text <$> [q1; q2; q3; q4])).
Proof.
  apply (startup_db_client_distinct_after latest_order [q1; q2; q3; q4]).
  apply (bool_decide_unpack _). vm_compute. exact I.
Defined.

(** X5: on a collection with unique identifiers the job removes a
    document only when it leaves another one with the same text; a
    document whose text no other document has is kept. *)
Theorem startup_db_client_never_drops_a_text (Acc : Accumulator)
    (db : Collection) :
  NoDup (_id <$> db) →
  ∃ db' calls,
    startup_db_client db = Ok (db', calls) ∧
    (∀ d, d ∈ db →
       d ∈ db' ∨ ∃ d', d' ∈ db' ∧ _id d' ≠ _id d ∧ text d' = text d) ∧
    (∀ d, d ∈ db → members (text d) db = [d] → d ∈ db').
Proof.
  intros Hdb. eexists _, _. split; [by apply startup_db_client_spec|].
  assert (Hs : ∀ d, d ∈ db →
            ∃ d', d' ∈ filter (canonical db) db ∧ d' ∈ db
                  ∧ text d' = text d).
  { intros d Hd.
    destruct (survivor_unique Acc db Hdb (text d)) as (d' & _ & Hd' & Ht & Hc);
      [by apply list_elem_of_fmap_2|].
    exists d'. split_and!; [|done|done]. by apply list_elem_of_filter. }
  split.
  - intros d Hd. destruct (Hs d Hd) as (d' & Hin & Hd' & Ht).
    destruct (decide (_id d' = _id d)) as [Heq|Hne].
    + left. by rewrite <- (image_inj_on _id db d' d Hdb Hd' Hd Heq).
    + right. by exists d'.
  - intros d Hd Hm. destruct (Hs d Hd) as (d' & Hin & Hd' & Ht).
    assert (Hmem : d' ∈ members (text d) db)
      by (apply list_elem_of_filter; by split).
    rewrite Hm in Hmem. by apply list_elem_of_singleton in Hmem as ->.
Qed.

Lemma startup_db_client_never_drops_a_text_witness :
  ∃ db' calls,
    @startup_db_client latest_order [q1; q2; q3] = Ok (db', calls) ∧
    (∀ d, d ∈ [q1; q2; q3] →
       d ∈ db' ∨ ∃ d', d' ∈ db' ∧ _id d' ≠ _id d ∧ text d' = text d) ∧
    (∀ d, d ∈ [q1; q2; q3] → members (text d) [q1; q2; q3] = [d] → d ∈ db').
Proof.
  apply (startup_db_client_never_drops_a_text latest_order [q1; q2; q3]).
  apply (bool_decide_unpack _). vm_compute. exact I.
Defined.

(** ** [create_question] followed by the startup job *)

Lemma members_app t (db1 db2 : Collection) :
  members t (db1 ++ db2) = members t db1 ++ members t db2.
Proof. apply filter_app. Qed.

(** X6: [create_question] stores a text that is already present (it does
    not look for duplicates), and the next startup job, on a store that
    lists identifiers in insertion order, removes the new document again:
    a collection with unique identifiers and pairwise distinct texts is
    back as it was. *)
Theorem create_duplicate_then_startup (B : Bson) (Acc : Accumulator)
    (question_text : string) (utcnow : datetime) (db : Collection) :
  OrderPreserving Acc →
  NoDup (_id <$> db) →
  NoDup (text <$> db) →
  question_text ∈ text <$> db →
  question_text ∈ text <$> (create_question question_text utcnow db).1 ∧
  get_questions (create_question question_text utcnow db).1
    = S (get_questions db) ∧
  ∃ calls,
    startup_db_client (create_question question_text utcnow db).1
      = Ok (db, calls).
Proof.
  intros Hord Hids Htexts Hin.
  pose proof (create_question_NoDup B question_text utcnow db Hids) as Hids1.
  unfold create_question, insert_one in *. cbn [fst snd] in *.
  set (new := mkDocument (fresh_id db) question_text utcnow) in *.
  split_and!.
  - rewrite fmap_app, elem_of_app. by left.
  - unfold get_questions, count_documents. rewrite length_app. simpl. lia.
  - eexists. rewrite (startup_db_client_spec Acc _ Hids1). do 2 f_equal.
    assert (Hhead : ∀ d, d ∈ db →
              head (addToSet (_id <$> members (text d) (db ++ [new])))
              = Some (_id d)).
    { intros d Hd. rewrite Hord by (by apply NoDup_ids_filter).
      rewrite members_app. unfold members at 1.
      by rewrite (filter_unique_image text db d Htexts Hd). }
    rewrite filter_app, filter_all by (intros d Hd; by apply Hhead).
    rewrite filter_none; [by rewrite app_nil_r|].
    intros d ->%list_elem_of_singleton. unfold canonical.
    apply list_elem_of_fmap in Hin as (d0 & Ht & Hd0).
    change (text new) with question_text. rewrite Ht, (Hhead d0 Hd0).
    intros [= Heq]. apply (fresh_id_fresh db).
    rewrite <- Heq.
    by apply list_elem_of_fmap_2.
Qed.

Lemma create_duplicate_then_startup_witness :
  text q1 ∈ text <$> (@create_question hex_bson (text q1) 500 [q1; q3]).1 ∧
  get_questions (@create_question hex_bson (text q1) 500 [q1; q3]).1
    = S (get_questions [q1; q3]) ∧
  ∃ calls,
    @startup_db_client insertion_order
      (@create_question hex_bson (text q1) 500 [q1; q3]).1
      = Ok ([q1; q3], calls).
Proof.
  apply (create_duplicate_then_startup hex_bson insertion_order (text q1) 500
           [q1; q3]).
  - apply insertion_order_preserving.
  - apply (bool_decide_unpack _). vm_compute. exact I.
  - apply (bool_decide_unpack _). vm_compute. exact I.
  - apply (bool_decide_unpack _). vm_compute. exact I.
Defined.

(** ** [delete_question] and the collection *)

Lemma delete_one_unique oid db :
  NoDup (_id <$> db) → (delete_one oid db).1 = filter (λ d, _id d ≠ oid) db.
Proof.
  induction db as [|d db IH]; [done|].
  rewrite fmap_cons. intros [Hd Hnd]%NoDup_cons.
  cbn [delete_one]. rewrite filter_cons.
  destruct (decide (_id d = oid)) as [<-|Hne].
  - rewrite decide_False by (intros Hn; by apply Hn). simpl.
    symmetry. apply filter_all. intros x Hx Heq. apply Hd.
    rewrite <- Heq. by apply list_elem_of_fmap_2.
  - rewrite decide_True by done. specialize (IH Hnd).
    destruct (delete_one oid db) as [r n]. simpl in *. by rewrite IH.
Qed.

Lemma delete_question_store (B : Bson) question_id oid db :
  ObjectId_from_str question_id = Ok oid →
  (delete_question question_id db).1 = (delete_one oid db).1.
Proof.
  intros Hoid. unfold delete_question. rewrite Hoid.
  destruct (delete_one oid db) as [db' n]. by case_decide.
Qed.

(** X7: with unique identifiers, [delete_question] leaves exactly the
    documents with another identifier, in their order: the identified
    document is gone, every other one is kept, identifiers stay unique
    and the number of documents drops by one when the identifier was
    stored and not at all otherwise. *)
Theorem delete_question_removes_only_target (B : Bson) (question_id : string)
    (oid : ObjectId) (db : Collection) :
  ObjectId_from_str question_id = Ok oid →
  NoDup (_id <$> db) →
  (delete_question question_id db).1 = filter (λ d, _id d ≠ oid) db ∧
  (oid ∉ _id <$> (delete_question question_id db).1) ∧
  NoDup (_id <$> (delete_question question_id db).1) ∧
  get_questions (delete_question question_id db).1
    = get_questions db - (if decide (oid ∈ _id <$> db) then 1 else 0).
Proof.
  intros Hoid Hnd.
  rewrite (delete_question_store B question_id oid db Hoid).
  pose proof (delete_one_unique oid db Hnd) as Hf.
  split_and!.
  - exact Hf.
  - rewrite Hf. intros (d & -> & [Hne _]%list_elem_of_filter)%list_elem_of_fmap.
    by apply Hne.
  - rewrite Hf. by apply NoDup_ids_filter.
  - unfold get_questions, count_documents. rewrite <- delete_one_count.
    clear Hf Hnd Hoid. induction db as [|d db IH]; [done|].
    cbn [delete_one]. case_decide; [simpl; lia|].
    destruct (delete_one oid db) as [r n] eqn:E. simpl in *.
    assert (n ≤ 1).
    { pose proof (delete_one_count oid db) as Hc. rewrite E in Hc.
      simpl in Hc. case_decide; lia. }
    destruct db; simpl in *; [injection E as <- <-; simpl; lia|lia].
Qed.

Lemma delete_question_removes_only_target_witness :
  (@delete_question hex_bson "000000000000000000000002" [q1; q2; q3]).1
    = filter (λ d, _id d ≠ 2%N) [q1; q2; q3] ∧
  (2%N ∉ _id <$> (@delete_question hex_bson "000000000000000000000002"
                    [q1; q2; q3]).1) ∧
  NoDup (_id <$> (@delete_question hex_bson "000000000000000000000002"
                    [q1; q2; q3]).1) ∧
  get_questions (@delete_question hex_bson "000000000000000000000002"
                   [q1; q2; q3]).1
    = get_questions [q1; q2; q3]
      - (if decide (2%N ∈ _id <$> [q1; q2; q3]) then 1 else 0).
Proof.
  apply (delete_question_removes_only_target hex_bson
           "000000000000000000000002" 2%N [q1; q2; q3]).
  - vm_compute. reflexivity.
  - apply (bool_decide_unpack _). vm_compute. exact I.
Defined.

(** X8: with unique identifiers, deleting the same identifier a second
    time raises the 404 error and leaves the collection as the first
    deletion left it. *)
Theorem delete_question_twice (B : Bson) (question_id : string)
    (oid : ObjectId) (db : Collection) :
  ObjectId_from_str question_id = Ok oid →
  NoDup (_id <$> db) →
  delete_question question_id (delete_question question_id db).1
    = ((delete_question question_id db).1,
       Raise (HTTPException 404 "Question not found")).
Proof.
  intros Hoid Hnd.
  rewrite (delete_question_store B question_id oid db Hoid).
  rewrite (delete_one_unique oid db Hnd).
  set (db1 := filter (λ d, _id d ≠ oid) db).
  assert (Hout : oid ∉ _id <$> db1).
  { intros (d & -> & [Hne _]%list_elem_of_filter)%list_elem_of_fmap.
    by apply Hne. }
  unfold delete_question. rewrite Hoid.
  pose proof (delete_one_count oid db1) as Hc.
  pose proof (delete_one_absent oid db1 Hout) as Ha.
  destruct (delete_one oid db1) as [db2 n]. simpl in *. subst db2.
  rewrite decide_False in Hc by done. by rewrite decide_True.
Qed.

Lemma delete_question_twice_witness :
  @delete_question hex_bson "000000000000000000000001"
    (@delete_question hex_bson "000000000000000000000001" [q1; q2]).1
  = ((@delete_question hex_bson "000000000000000000000001" [q1; q2]).1,
     Raise (HTTPException 404 "Question not found")).
Proof.
  apply (delete_question_twice hex_bson "000000000000000000000001" 1%N
           [q1; q2]).
  - vm_compute. reflexivity.
  - apply (bool_decide_unpack _). vm_compute. exact I.
Defined.

(** X9: a question just created can be deleted by the identifier
    [create_question] returned, when the [ObjectId] constructor reads
    that string back: the deletion succeeds and the collection is as it
    was before the creation. *)
Theorem create_then_delete (B : Bson) (question_text : string)
    (utcnow : datetime) (db : Collection) :
  ObjectId_from_str (Question.id (create_question question_text utcnow db).2)
    = Ok (fresh_id db) →
  delete_question (Question.id (create_question question_text utcnow db).2)
    (create_question question_text utcnow db).1
  = (db, Ok "Question deleted successfully").
Proof.
  intros Hoid. unfold delete_question. rewrite Hoid.
  unfold create_question, insert_one. cbn [fst snd].
  pose proof (fresh_id_fresh db) as Hfresh.
  generalize dependent (fresh_id db). intros oid _ Hfresh.
  assert (Hd : delete_one oid (db ++ [mkDocument oid question_text utcnow])
               = (db, 1)).
  { induction db as [|d db IH].
    - simpl. by rewrite decide_True.
    - rewrite fmap_cons, not_elem_of_cons in Hfresh.
      destruct Hfresh as [Hne Hfresh].
      rewrite <- app_comm_cons. cbn [delete_one].
      rewrite decide_False by done. by rewrite (IH Hfresh). }
  rewrite Hd. by rewrite decide_False.
Qed.

Lemma create_then_delete_witness :
  @delete_question hex_bson
    (Question.id (@create_question hex_bson "hi" 5 [q1; q2]).2)
    (@create_question hex_bson "hi" 5 [q1; q2]).1
  = ([q1; q2], Ok "Question deleted successfully").
Proof.
  apply (create_then_delete hex_bson "hi" 5 [q1; q2]).
  vm_compute. reflexivity.
Defined.

(** ** The semantic matcher over parts of the collection *)

(** X10: [check_similarity] treats every stored question on its own: over
    a collection in two parts, the entries are those of the first part
    followed by those of the second, and the counts add up. *)
Theorem check_similarity_app (B : Bson) (E : Embedder) (question_text : string)
    (db1 db2 : Collection) :
  similar_questions (check_similarity question_text (db1 ++ db2))
    = similar_questions (check_similarity question_text db1)
      ++ similar_questions (check_similarity question_text db2)
  ∧ similarity_count (check_similarity question_text (db1 ++ db2))
    = similarity_count (check_similarity question_text db1)
      + similarity_count (check_similarity question_text db2).
Proof.
  rewrite !check_similarity_spec. cbn [similar_questions similarity_count].
  rewrite filter_app, fmap_app. split; [done|]. by rewrite length_app.
Qed.

(** X11: [similarity_count] is the number of entries and never exceeds the
    number of stored questions; when no stored question is strictly above
    the threshold the response is empty. *)
Theorem check_similarity_bounded (B : Bson) (E : Embedder)
    (question_text : string) (db : Collection) :
  similarity_count (check_similarity question_text db)
    = length (similar_questions (check_similarity question_text db))
  ∧ similarity_count (check_similarity question_text db) ≤ get_questions db
  ∧ ((∀ q, q ∈ db →
        (0.7 <? similarity (nlp question_text) (nlp (text q)))%float = false) →
     check_similarity question_text db = mkSimilarityResponse [] 0).
Proof.
  rewrite check_similarity_spec. cbn [similar_questions similarity_count].
  split_and!; [done| |].
  - rewrite length_fmap. apply length_filter.
  - intros Hnone. rewrite filter_none; [done|].
    intros q Hq. unfold passes. rewrite (Hnone q Hq). discriminate.
Qed.

(** ** The lexical matcher and the stored questions *)

(** X12: the entries of [check_similarity_2] are exactly the stored
    questions that match the search with a [textScore] strictly above
    2.5, each with its identifier as a string and its text, creation time
    and score as stored and scored. *)
Theorem check_similarity_2_results (B : Bson) (I : TextIndex)
    (question_text : string) (db : Collection) (r : Hit.t) :
  r ∈ similar_questions (check_similarity_2 question_text db) ↔
  ∃ q s, q ∈ db ∧ textScore question_text (text q) = Some s ∧
         (2.5 <? s)%float = true ∧
         r = Hit.mk (StrV (str (_id q))) (text q) (created_at q) (Some s).
Proof.
  unfold check_similarity_2, check_similarity_2_on. cbv zeta.
  cbn [similar_questions]. rewrite check_similarity_2_loop_spec. cbn [app].
  rewrite list_elem_of_fmap. unfold text_search. split.
  - intros (h & -> & [Hr Hh]%list_elem_of_filter).
    apply elem_of_sorted_hits, list_elem_of_omap in Hh as (q & Hq & Hs).
    destruct (textScore question_text (text q)) as [s|] eqn:Es; [|done].
    simpl in Hs. injection Hs as <-. exists q, s. by split_and!.
  - intros (q & s & Hq & Hs & Hgt & ->).
    exists (Hit.mk (OidV (_id q)) (text q) (created_at q) (Some s)).
    split; [done|]. apply list_elem_of_filter. split; [done|].
    apply elem_of_sorted_hits, list_elem_of_omap. exists q.
    split; [done|]. by rewrite Hs.
Qed.

(** X13: [similarity_count] of [check_similarity_2] is the number of
    entries and never exceeds the number of stored questions; on a
    collection no question of which matches the search the response is
    empty. *)
Theorem check_similarity_2_bounded (B : Bson) (I : TextIndex)
    (question_text : string) (db : Collection) :
  similarity_count (check_similarity_2 question_text db)
    = length (similar_questions (check_similarity_2 question_text db))
  ∧ similarity_count (check_similarity_2 question_text db) ≤ get_questions db
  ∧ ((∀ q, q ∈ db → textScore question_text (text q) = None) →
     check_similarity_2 question_text db = mkSimilarityResponse [] 0).
Proof.
  unfold check_similarity_2, check_similarity_2_on. cbv zeta.
  cbn [similar_questions similarity_count].
  rewrite check_similarity_2_loop_spec. cbn [app].
  split_and!; [done| |].
  - rewrite length_fmap. etrans; [apply length_filter|].
    unfold text_search, get_questions, count_documents.
    induction db as [|d db IH]; [done|]. cbn [omap list_omap].
    destruct (textScore question_text (text d)); simpl.
    + rewrite length_insert_by_score. lia.
    + lia.
  - intros Hnone.
    assert (Hs : text_search question_text db = []).
    { unfold text_search. induction db as [|d db IH]; [done|].
      cbn [omap list_omap]. rewrite (Hnone d) by left. simpl.
      apply IH. intros q Hq. apply Hnone. by right. }
    by rewrite Hs.
Qed.

(** ** The word-overlap counter *)

(** A text without words: empty or made of whitespace only. *)
Fixpoint blank (s : string) : bool :=
  match s with
  | EmptyString => true
  | String c s' => isspace c && blank s'
  end.


(** X14: [check_words] reports a positive count exactly when some word of
    the input and some word of a stored question are equal once in lower
    case. *)
Theorem check_words_positive_iff (request_text : string) (db : Collection) :
  0 < match_count (check_words request_text db) ↔
  ∃ q w1 w2, q ∈ db ∧ w1 ∈ split request_text ∧ w2 ∈ split (text q)
             ∧ lower w1 = lower w2.
Proof.
  rewrite check_words_filter. split.
  - intros Hpos.
    destruct (filter (overlaps request_text) db) as [|q l] eqn:E;
      [simpl in Hpos; lia|].
    assert (Hq : q ∈ filter (overlaps request_text) db) by (rewrite E; left).
    apply list_elem_of_filter in Hq as [Ho Hq].
    apply overlaps_iff in Ho as (w1 & w2 & ?). by exists q, w1, w2.
  - intros (q & w1 & w2 & Hq & Hw).
    assert (Hin : q ∈ filter (overlaps request_text) db).
    { apply list_elem_of_filter. split; [|done].
      apply overlaps_iff. by exists w1, w2. }
    destruct (filter (overlaps request_text) db);
      [by apply elem_of_nil in Hin|simpl; lia].
Qed.

(** X15: word overlap is symmetric: an input counted against a stored
    text is counted the other way round as well. *)
Theorem check_words_symmetric (a b : string) (i j : ObjectId)
    (c c' : datetime) :
  check_words a [mkDocument i b c] = check_words b [mkDocument j a c'].
Proof.
  assert (H : match_count (check_words a [mkDocument i b c])
              = match_count (check_words b [mkDocument j a c'])).
  { rewrite !check_words_single.
    assert (Hc : overlaps a (mkDocument i b c)
                 ↔ overlaps b (mkDocument j a c')).
    { unfold overlaps. simpl.
      by rewrite (comm_L (∩) (word_set a) (word_set b)). }
    repeat case_decide; tauto. }
  destruct (check_words a [mkDocument i b c]),
           (check_words b [mkDocument j a c']).
  simpl in H. by rewrite H.
Qed.

(** X16: the count is additive over the parts of a collection, so it does
    not depend on the order in which the store yields the questions. *)
Theorem check_words_app (request_text : string) (db1 db2 : Collection) :
  match_count (check_words request_text (db1 ++ db2))
    = match_count (check_words request_text db1)
      + match_count (check_words request_text db2)
  ∧ check_words request_text (db1 ++ db2)
    = check_words request_text (db2 ++ db1)
  ∧ check_words request_text (reverse db1) = check_words request_text db1.
Proof.
  assert (Hp : ∀ l k, l ≡ₚ k →
            check_words request_text l = check_words request_text k).
  { intros l k Hlk.
    assert (H : match_count (check_words request_text l)
                = match_count (check_words request_text k))
      by (by rewrite !check_words_filter, Hlk).
    destruct (check_words request_text l), (check_words request_text k).
    simpl in H. by rewrite H. }
  split_and!.
  - by rewrite !check_words_filter, filter_app, length_app.
  - apply Hp, Permutation_app_comm.
  - apply Hp, reverse_Permutation.
Qed.





Lemma lower_empty_iff w : lower w = EmptyString ↔ w = EmptyString.
Proof. by destruct w. Qed.




Lemma split_from_word s w : w ≠ EmptyString → split_from s w ≠ [].
Proof.
  revert w. induction s as [|c s IH]; intros w Hw; simpl.
  - by rewrite decide_False.
  - destruct (isspace c).
    + by rewrite decide_False.
    + apply IH. by destruct w.
Qed.

Lemma split_blank s : split s = [] ↔ blank s = true.
Proof.
  unfold split. induction s as [|c s IH]; simpl; [done|].
  destruct (isspace c); simpl.
  - exact IH.
  - split; [|done]. intros H. by apply split_from_word in H.
Qed.

Lemma word_set_blank s : word_set s = ∅ ↔ blank s = true.
Proof.
  rewrite <- split_blank. unfold word_set. split.
  - intros He. destruct (split s) as [|w l]; [done|].
    exfalso. assert (Hin : lower w ∈ (∅ : gset string)); [|set_solver].
    rewrite <- He. apply elem_of_list_to_set. left.
  - by intros ->.
Qed.

(** X18: a text made of whitespace only has no words: as input it counts
    nothing, and as stored text it is never counted; any other input
    counts a stored question with the same text. *)
Theorem check_words_blank (request_text : string) (db : Collection)
    (q : Document) :
  (blank request_text = true →
   match_count (check_words request_text db) = 0)
  ∧ (blank (text q) = true →
     match_count (check_words request_text (q :: db))
       = match_count (check_words request_text db))
  ∧ (blank request_text = false → text q = request_text →
     match_count (check_words request_text (q :: db))
       = S (match_count (check_words request_text db))).
Proof.
  rewrite !check_words_filter, filter_cons. split_and!.
  - intros Hb%word_set_blank. rewrite filter_none; [done|].
    intros d _. unfold overlaps. rewrite Hb. set_solver.
  - intros Hb%word_set_blank. rewrite decide_False; [done|].
    unfold overlaps. rewrite Hb. set_solver.
  - intros Hb Ht. rewrite decide_True; [done|].
    unfold overlaps. rewrite Ht.
    assert (Hne : word_set request_text ≠ ∅).
    { intros He%word_set_blank. congruence. }
    set_solver.
Qed.

(** ** The word-overlap counter and the other operations *)

(** X19: a question created with a text that has a word is counted by
    [check_words] for that same text: the count is one more than before
    the creation. *)
Theorem create_then_check_words (B : Bson) (question_text : string)
    (utcnow : datetime) (db : Collection) :
  blank question_text = false →
  match_count
    (check_words question_text (create_question question_text utcnow db).1)
  = S (match_count (check_words question_text db)).
Proof.
  intros Hb. unfold create_question, insert_one. cbn [fst snd].
  rewrite !check_words_filter, filter_app, length_app.
  rewrite filter_cons_True; [simpl; lia|].
  unfold overlaps. simpl.
  assert (Hne : word_set question_text ≠ ∅).
  { intros He%word_set_blank. congruence. }
  set_solver.
Qed.

Lemma create_then_check_words_witness :
  match_count
    (check_words "black hole"
       (@create_question hex_bson "black hole" 500 [q1; q3]).1)
  = S (match_count (check_words "black hole" [q1; q3])).
Proof.
  apply (create_then_check_words hex_bson "black hole" 500 [q1; q3]).
  vm_compute. reflexivity.
Defined.

(** X20: on a collection with unique identifiers, the startup job can
    only lower the count [check_words] reports, and never turns a
    positive count into zero. *)
Theorem check_words_after_startup (Acc : Accumulator) (request_text : string)
    (db : Collection) :
  NoDup (_id <$> db) →
  ∃ db' calls,
    startup_db_client db = Ok (db', calls) ∧
    match_count (check_words request_text db')
      ≤ match_count (check_words request_text db) ∧
    (0 < match_count (check_words request_text db') ↔
     0 < match_count (check_words request_text db)).
Proof.
  intros Hdb. eexists _, _. split; [by apply startup_db_client_spec|].
  rewrite !check_words_filter, filter_comm.
  assert (Hle : length (filter (canonical db)
                          (filter (overlaps request_text) db))
                ≤ length (filter (overlaps request_text) db))
    by apply length_filter.
  split; [exact Hle|]. split; [lia|]. intros Hpos.
  destruct (filter (overlaps request_text) db) as [|q l] eqn:E;
    [simpl in Hpos; lia|].
  assert (Hq : q ∈ filter (overlaps request_text) db) by (rewrite E; left).
  apply list_elem_of_filter in Hq as [Ho Hq].
  destruct (survivor_unique Acc db Hdb (text q)) as (d & _ & Hd & Ht & Hc);
    [by apply list_elem_of_fmap_2|].
  assert (Hin : d ∈ filter (canonical db) (q :: l)).
  { rewrite <- E. apply list_elem_of_filter. split; [done|].
    apply list_elem_of_filter. split; [|done].
    unfold overlaps in *. by rewrite Ht. }
  destruct (filter (canonical db) (q :: l));
    [by apply elem_of_nil in Hin|simpl; lia].
Qed.

Lemma check_words_after_startup_witness :
  ∃ db' calls,
    @startup_db_client latest_order [q1; q2; q3] = Ok (db', calls) ∧
    match_count (check_words "black" db')
      ≤ match_count (check_words "black" [q1; q2; q3]) ∧
    (0 < match_count (check_words "black" db') ↔
     0 < match_count (check_words "black" [q1; q2; q3])).
Proof.
  apply (check_words_after_startup latest_order "black" [q1; q2; q3]).
  apply (bool_decide_unpack _). vm_compute. exact I.
Defined.
